(** * Mowafy Sender: the bulk message dispatcher

    A shallow embedding of [src/backend/main.py]: the [MessageSendConfig]
    model, the [/api/send-messages] endpoint [send_messages] and the
    background coroutine [send_messages_task], followed by the properties
    of the dispatcher that the specification states.

    Python integers are [Z]; counters and positions that the code only ever
    increments from zero are [nat].  The effects of the coroutine (requests
    to the Graph API, [asyncio.sleep], [print], the queue of background
    tasks) and its exceptions are threaded through a state-and-exception
    monad; the outside world is an [endpoint] that answers each request. *)

From Stdlib Require Import ZArith List String Bool Arith Lia.
From Stdlib Require DecimalString.
Import ListNotations.

Local Open Scope Z_scope.

(** ** Python values *)

(** The exceptions the modelled code can meet.  All of them derive from
    [Exception], so both [except Exception] clauses of the source catch
    every one of them. *)
Inductive exn : Type :=
| ZeroDivisionError (msg : string)
| OverflowError (msg : string)
| HTTPError (msg : string)
| HTTPException (status_code : Z) (detail : string).

(** [str(n)] for a length. *)
Definition str_of_nat (n : nat) : string :=
  DecimalString.NilZero.string_of_uint (Nat.to_uint n).

(** [str(n)] for an integer. *)
Definition str_of_Z (n : Z) : string :=
  DecimalString.NilZero.string_of_int (Z.to_int n).

(** [str(e)]: the message of a built-in exception; Starlette prints an
    [HTTPException] as its status code, a colon and its detail. *)
Definition str (e : exn) : string :=
  match e with
  | ZeroDivisionError msg => msg
  | OverflowError msg => msg
  | HTTPError msg => msg
  | HTTPException status_code detail =>
      (str_of_Z status_code ++ ": " ++ detail)%string
  end.

(** ** Models (lines 52-59) *)

Record MessageSendConfig : Type := {
  page_id : string;
  access_token : string;
  message_text : string;
  recipient_ids : list string;
  delay_between_messages : Z;
  batch_size : Z;
  batch_delay : Z
}.

(** ** The Graph API as the coroutine sees it *)

(** One [client.post(url, json=payload, params=params)]. *)
Record request : Type := {
  req_url : string;
  req_recipient : string;
  req_text : string;
  req_access_token : string
}.

(** An [httpx.Response]: the status line and the top-level members of the
    JSON body. *)
Record response : Type := {
  status_code : Z;
  body : list (string * string)
}.

(** What awaiting a [client.post] gives: a response, or an exception. *)
Inductive post_result : Type :=
| Responded (r : response)
| Raised (e : exn).

(** The remote endpoint: its answer to the [n]-th request of the process
    (counting from zero).  Indexing by [n] lets the same recipient be
    answered differently on a later attempt. *)
Definition endpoint : Type := nat -> request -> post_result.

(** The reply of [/api/send-messages]. *)
Record Acknowledgment : Type := {
  status : string;
  message : string;
  total_recipients : nat
}.

(** ** Effects *)

Inductive event : Type :=
| EPost (r : request)
| ESleep (seconds : Z)
| EPrint (line : string)
| ERespond (a : Acknowledgment).

(** The locals [successful] and [failed] of [send_messages_task], the
    number of requests issued so far, the [BackgroundTasks] queue of the
    request being served, and everything observable that has happened, in
    order of occurrence. *)
Record state : Type := {
  successful : nat;
  failed : nat;
  calls : nat;
  background_tasks : list MessageSendConfig;
  trace : list event
}.

Definition init : state :=
  {| successful := 0; failed := 0; calls := 0;
     background_tasks := []; trace := [] |}.

Inductive result (A : Type) : Type :=
| Ok (a : A)
| Raise (e : exn).
Arguments Ok {A} a.
Arguments Raise {A} e.

(** A computation keeps the state it reached when it raises: Python does
    not roll back locals or past I/O. *)
Definition M (A : Type) : Type := state -> result A * state.

Definition ret {A} (a : A) : M A := fun s => (Ok a, s).

Definition raise {A} (e : exn) : M A := fun s => (Raise e, s).

Definition bind {A B} (m : M A) (k : A -> M B) : M B :=
  fun s =>
    match m s with
    | (Ok a, s') => k a s'
    | (Raise e, s') => (Raise e, s')
    end.

(** [try: m  except Exception as e: handler e] *)
Definition try_except {A} (m : M A) (handler : exn -> M A) : M A :=
  fun s =>
    match m s with
    | (Ok a, s') => (Ok a, s')
    | (Raise e, s') => handler e s'
    end.

Declare Scope py_scope.
Delimit Scope py_scope with py.
Notation "x <- m ;; k" := (bind m (fun x => k))
  (at level 61, m at next level, right associativity) : py_scope.
Notation "m ;; k" := (bind m (fun _ => k))
  (at level 61, right associativity) : py_scope.
Local Open Scope py_scope.

Definition emit (e : event) : M unit :=
  fun s =>
    (Ok tt,
     {| successful := successful s; failed := failed s; calls := calls s;
        background_tasks := background_tasks s;
        trace := trace s ++ [e] |}).

(** [successful = a; failed = b] *)
Definition set_counters (a b : nat) : M unit :=
  fun s =>
    (Ok tt,
     {| successful := a; failed := b; calls := calls s;
        background_tasks := background_tasks s; trace := trace s |}).

(** [successful += 1] *)
Definition incr_successful : M unit :=
  fun s =>
    (Ok tt,
     {| successful := S (successful s); failed := failed s;
        calls := calls s; background_tasks := background_tasks s;
        trace := trace s |}).

(** [failed += 1] *)
Definition incr_failed : M unit :=
  fun s =>
    (Ok tt,
     {| successful := successful s; failed := S (failed s);
        calls := calls s; background_tasks := background_tasks s;
        trace := trace s |}).

(** [await client.post(...)]: the request goes out, then the endpoint's
    answer comes back as a value or as an exception. *)
Definition client_post (ep : endpoint) (rq : request) : M response :=
  fun s =>
    let s' :=
      {| successful := successful s; failed := failed s;
         calls := S (calls s); background_tasks := background_tasks s;
         trace := trace s ++ [EPost rq] |} in
    match ep (calls s) rq with
    | Responded r => (Ok r, s')
    | Raised e => (Raise e, s')
    end.

(** The least integer that Python cannot convert to a float: from here on
    the conversion rounds beyond the largest double and raises. *)
Definition float_limit : Z := 2 ^ 1024 - 2 ^ 970.

(** [await asyncio.sleep(seconds)] on asyncio's event loop.  A value that
    is not positive returns at once.  Any other value is added to the
    loop's clock, a float, to schedule the wake-up: an integer from
    [float_limit] on cannot be converted and the call raises instead of
    sleeping.  The event records the value slept on. *)
Definition sleep (seconds : Z) : M unit :=
  if seconds <=? 0 then emit (ESleep seconds)
  else if float_limit <=? seconds
       then raise (OverflowError "int too large to convert to float")
       else emit (ESleep seconds).

Definition print (line : string) : M unit := emit (EPrint line).

(** [background_tasks.add_task(send_messages_task, config)] *)
Definition add_task (config : MessageSendConfig) : M unit :=
  fun s =>
    (Ok tt,
     {| successful := successful s; failed := failed s; calls := calls s;
        background_tasks := background_tasks s ++ [config];
        trace := trace s |}).

(** [a % b] on Python integers: the result takes the sign of [b], as
    [Z.modulo] does, and a zero divisor raises. *)
Definition py_mod (a b : Z) : M Z :=
  if b =? 0 then raise (ZeroDivisionError "integer modulo by zero")
  else ret (a mod b).

(** ** Iterating the recipients *)

(** [for index, item in enumerate(l): body] over a list, entered with
    the counter of [enumerate] at [index]. *)
Fixpoint for_enumerate (l : list string) (index : nat)
    (loop_body : nat -> string -> M unit) : M unit :=
  match l with
  | [] => ret tt
  | item :: rest =>
      loop_body index item ;; for_enumerate rest (S index) loop_body
  end.

(** ** [send_messages_task] (lines 205-236) *)

Definition FB_API_VERSION : string := "v18.0".

Definition FB_GRAPH_URL : string :=
  ("https://graph.facebook.com/" ++ FB_API_VERSION)%string.

(** Line 206. *)
Definition messages_url (config : MessageSendConfig) : string :=
  (FB_GRAPH_URL ++ "/" ++ page_id config ++ "/messages")%string.

(** Lines 214-218: payload and params of one request. *)
Definition request_for (config : MessageSendConfig) (recipient_id : string)
  : request :=
  {| req_url := messages_url config;
     req_recipient := recipient_id;
     req_text := message_text config;
     req_access_token := access_token config |}.

(** Lines 220-227: one delivery and the counter it moves. *)
Definition deliver (config : MessageSendConfig) (ep : endpoint)
    (recipient_id : string) : M unit :=
  try_except
    (response <- client_post ep (request_for config recipient_id) ;;
     if status_code response =? 200 then incr_successful else incr_failed)
    (fun _ => incr_failed).

(** Lines 229-233: the delay after the send at [index].  The left operand
    of [and] is evaluated first, so the modulo runs on every iteration. *)
Definition delay_logic (config : MessageSendConfig) (index : nat) : M unit :=
  m <- py_mod (Z.of_nat index + 1) (batch_size config) ;;
  if (m =? 0)
     && (Z.of_nat index + 1 <? Z.of_nat (List.length (recipient_ids config)))
  then sleep (batch_delay config)
  else sleep (delay_between_messages config).

(** Lines 214-233: the body of the loop. *)
Definition loop_body (config : MessageSendConfig) (ep : endpoint)
    (index : nat) (recipient_id : string) : M unit :=
  deliver config ep recipient_id ;; delay_logic config index.

(** Lines 212-233: what the outer [try] protects.  Opening and closing the
    [httpx.AsyncClient] has no effect the model observes. *)
Definition dispatch (config : MessageSendConfig) (ep : endpoint) : M unit :=
  for_enumerate (recipient_ids config) 0%nat (loop_body config ep).

(** Lines 235-236. *)
Definition on_run_error (e : exn) : M unit :=
  print ("Error in send_messages_task: " ++ str e)%string.

(** [send_messages_task(config)] *)
Definition send_messages_task (config : MessageSendConfig) (ep : endpoint)
  : M unit :=
  set_counters 0 0 ;;
  try_except (dispatch config ep) on_run_error.

(** ** [send_messages] (lines 190-203) *)

Definition send_messages (config : MessageSendConfig) : M Acknowledgment :=
  try_except
    (add_task config ;;
     ret {| status := "processing";
            message := ("Started sending "
                        ++ str_of_nat (List.length (recipient_ids config))
                        ++ " messages")%string;
            total_recipients := List.length (recipient_ids config) |})
    (fun e => raise (HTTPException 500 (str e))).

(** The queued tasks, run one after the other. *)
Fixpoint run_tasks (tasks : list MessageSendConfig) (ep : endpoint)
  : M unit :=
  match tasks with
  | [] => ret tt
  | config :: rest => send_messages_task config ep ;; run_tasks rest ep
  end.

(** One request to [/api/send-messages] as FastAPI serves it: the endpoint
    function runs, its return value is sent as the response, and only then
    are the background tasks of the request awaited. *)
Definition serve (config : MessageSendConfig) (ep : endpoint) : M unit :=
  a <- send_messages config ;;
  emit (ERespond a) ;;
  (fun s => run_tasks (background_tasks s) ep s).

(** ** Observations *)

(** The state in which a computation started from [init] ends. *)
Definition final {A} (m : M A) : state := snd (m init).

(** Whether it returned or raised. *)
Definition outcome {A} (m : M A) : result A := fst (m init).

Definition posts (t : list event) : list request :=
  flat_map (fun e => match e with EPost r => [r] | _ => [] end) t.

Definition sleeps (t : list event) : list Z :=
  flat_map (fun e => match e with ESleep d => [d] | _ => [] end) t.

Definition printed (t : list event) : list string :=
  flat_map (fun e => match e with EPrint l => [l] | _ => [] end) t.

(** How long a sleep on [seconds] suspends the run: not at all on a value
    that is not positive. *)
Definition waited (seconds : Z) : Z := Z.max 0 seconds.

(** The waits of a trace, in order. *)
Definition waits (t : list event) : list Z := map waited (sleeps t).

(** The run completes normally when the protected block (lines 212-233)
    ends without an exception reaching the run-level handler. *)
Definition completes_normally (config : MessageSendConfig) (ep : endpoint)
  : Prop :=
  outcome (dispatch config ep) = Ok tt.

(** How one delivery is counted. *)
Inductive Outcome : Type := Success | Failure.

Definition Outcome_eqb (a b : Outcome) : bool :=
  match a, b with
  | Success, Success | Failure, Failure => true
  | _, _ => false
  end.

(** The outcome read off lines 222-227; [deliver_counts] below shows that
    it is the counter [deliver] moves. *)
Definition outcome_of (r : post_result) : Outcome :=
  match r with
  | Responded resp => if status_code resp =? 200 then Success else Failure
  | Raised _ => Failure
  end.

(** The outcomes of delivering to [l] in order, when [c] requests have
    already been issued. *)
Fixpoint outcomes (config : MessageSendConfig) (ep : endpoint) (c : nat)
    (l : list string) : list Outcome :=
  match l with
  | [] => []
  | r :: rest =>
      outcome_of (ep c (request_for config r))
      :: outcomes config ep (S c) rest
  end.

Definition count (o : Outcome) (l : list Outcome) : nat :=
  List.length (filter (Outcome_eqb o) l).

(** Whether the JSON body reports an API error, tested as the sibling
    endpoints of the source do with ["error" in data]. *)
Definition has_error (data : list (string * string)) : bool :=
  existsb (fun kv => String.eqb "error" (fst kv)) data.

(** ** What a run leaves behind *)

(** The value that lines 229-233 sleep on after the send at [index], when
    the modulo is defined. *)
Definition next_delay (config : MessageSendConfig) (index : nat) : Z :=
  if ((Z.of_nat index + 1) mod batch_size config =? 0)
     && (Z.of_nat index + 1 <? Z.of_nat (List.length (recipient_ids config)))
  then batch_delay config
  else delay_between_messages config.

(** One request issued and counted as [o]. *)
Definition record_outcome (o : Outcome) (rq : request) (s : state) : state :=
  {| successful :=
       match o with Success => S (successful s) | Failure => successful s end;
     failed :=
       match o with Success => failed s | Failure => S (failed s) end;
     calls := S (calls s);
     background_tasks := background_tasks s;
     trace := trace s ++ [EPost rq] |}.

(** The events of sending to [l] and pausing after each send, the first
    item being at [index]. *)
Fixpoint paced (config : MessageSendConfig) (index : nat) (l : list string)
  : list event :=
  match l with
  | [] => []
  | r :: rest =>
      EPost (request_for config r)
      :: ESleep (next_delay config index)
      :: paced config (S index) rest
  end.

(** The state after the loop has gone through the items [l]. *)
Definition after_items (config : MessageSendConfig) (ep : endpoint)
    (index : nat) (l : list string) (s : state) : state :=
  {| successful := successful s + count Success (outcomes config ep (calls s) l);
     failed := failed s + count Failure (outcomes config ep (calls s) l);
     calls := calls s + List.length l;
     background_tasks := background_tasks s;
     trace := trace s ++ paced config index l |}.

(** Whether [asyncio.sleep] raises on [seconds]. *)
Definition overflows (seconds : Z) : bool :=
  (0 <? seconds) && (float_limit <=? seconds).

(** Both delays of the job are values [asyncio.sleep] can sleep on. *)
Definition delays_fit (config : MessageSendConfig) : Prop :=
  delay_between_messages config < float_limit /\
  batch_delay config < float_limit.

(** How the loop over [l] ends when the modulo is defined: it runs out of
    items, or a sleep raises. *)
Fixpoint loop_result (config : MessageSendConfig) (index : nat)
    (l : list string) : result unit :=
  match l with
  | [] => Ok tt
  | _ :: rest =>
      if overflows (next_delay config index)
      then Raise (OverflowError "int too large to convert to float")
      else loop_result config (S index) rest
  end.

(** The items the loop gets to: all of them, or those up to the one after
    which the sleep raises. *)
Fixpoint reached (config : MessageSendConfig) (index : nat)
    (l : list string) : list string :=
  match l with
  | [] => []
  | r :: rest =>
      r :: (if overflows (next_delay config index) then []
            else reached config (S index) rest)
  end.

(** The events of the loop over [l], up to a sleep that raises. *)
Fixpoint run_events (config : MessageSendConfig) (index : nat)
    (l : list string) : list event :=
  match l with
  | [] => []
  | r :: rest =>
      EPost (request_for config r)
      :: (if overflows (next_delay config index) then []
          else ESleep (next_delay config index)
               :: run_events config (S index) rest)
  end.

(** The state in which the loop over [l] ends. *)
Definition after_loop (config : MessageSendConfig) (ep : endpoint)
    (index : nat) (l : list string) (s : state) : state :=
  {| successful :=
       successful s
       + count Success (outcomes config ep (calls s) (reached config index l));
     failed :=
       failed s
       + count Failure (outcomes config ep (calls s) (reached config index l));
     calls := calls s + List.length (reached config index l);
     background_tasks := background_tasks s;
     trace := trace s ++ run_events config index l |}.

(** ** Scenarios *)

Definition job (recipients : list string) (delay size pause : Z)
  : MessageSendConfig :=
  {| page_id := "1029384756";
     access_token := "EAAB";
     message_text := "hello";
     recipient_ids := recipients;
     delay_between_messages := delay;
     batch_size := size;
     batch_delay := pause |}.

Definition twelve : list string :=
  ["r1"; "r2"; "r3"; "r4"; "r5"; "r6"; "r7"; "r8"; "r9"; "r10"; "r11";
   "r12"]%string.

Definition ten : list string :=
  ["r1"; "r2"; "r3"; "r4"; "r5"; "r6"; "r7"; "r8"; "r9"; "r10"]%string.

(** An endpoint that accepts every message. *)
Definition accepts_all : endpoint :=
  fun _ _ => Responded {| status_code := 200; body := [] |}.

(** An endpoint that rejects every message with a 400 and an error body. *)
Definition rejects_all : endpoint :=
  fun _ _ =>
    Responded {| status_code := 400;
                 body := [("error", "(#10) outside the allowed window")]%string |}.

(** An endpoint that refuses the third and the seventh request, one with
    an HTTP error status and one with a dropped connection. *)
Definition fails_3_and_7 : endpoint :=
  fun n _ =>
    if Nat.eqb n 2 then Responded {| status_code := 500; body := [] |}
    else if Nat.eqb n 6 then Raised (HTTPError "connection reset")
    else Responded {| status_code := 200; body := [] |}.

(** A success status carrying an API error in its body. *)
Definition error_with_200 : response :=
  {| status_code := 200;
     body := [("error", "(#551) this person is not available")]%string |}.

Definition answers_error_with_200 : endpoint :=
  fun _ _ => Responded error_with_200.

(** A delay far beyond what a float can hold. *)
Definition huge : Z := 10 ^ 400.

(** ** Comparing runs *)

(** The same job with another [batch_size]. *)
Definition with_batch_size (config : MessageSendConfig) (size : Z)
  : MessageSendConfig :=
  {| page_id := page_id config;
     access_token := access_token config;
     message_text := message_text config;
     recipient_ids := recipient_ids config;
     delay_between_messages := delay_between_messages config;
     batch_size := size;
     batch_delay := batch_delay config |}.

(** The seconds asked of [asyncio.sleep] over a whole trace. *)
Definition total_wait (t : list event) : Z :=
  fold_right Z.add 0 (sleeps t).

(** ** The read endpoints (lines 87-187)

    [facebook_auth_callback], [get_user_pages], [get_page_conversations]
    and [get_conversation_messages] each send one GET to the Graph API,
    parse the answer as JSON and shape a reply.  Nothing in them touches
    the state of the dispatcher, so they are modelled as functions of the
    Graph API's answer, with Python's exceptions as values. *)

Module Graph.

(** What [response.json()] can return.  A number keeps its literal: the
    endpoints never compute with one.  The members of an object are the
    items of the parsed [dict], in order, each key once. *)
#[local] Unset Elimination Schemes.
Inductive json : Type :=
| JNull
| JBool (b : bool)
| JNumber (literal : string)
| JString (s : string)
| JArray (items : list json)
| JObject (members : list (string * json)).
#[local] Set Elimination Schemes.

(** The exceptions these endpoints can meet; all derive from [Exception].
    The [detail] of an [HTTPException] is any value: the source passes
    both strings and members of the parsed answer. *)
Inductive error : Type :=
| KeyError (key : string)
| TypeError
| AttributeError
| JSONDecodeError
| ValidationError
| TransportError (msg : string)
| HTTPException (status_code : Z) (detail : json).

Inductive py (A : Type) : Type :=
| Return (a : A)
| Throw (e : error).
Arguments Return {A} a.
Arguments Throw {A} e.

Definition bind {A B} (m : py A) (k : A -> py B) : py B :=
  match m with
  | Return a => k a
  | Throw e => Throw e
  end.

(** [try: m  except Exception as e: handler e] *)
Definition try_except {A} (m : py A) (handler : error -> py A) : py A :=
  match m with
  | Return a => Return a
  | Throw e => handler e
  end.

(** The value a [dict] holds for [key]. *)
Fixpoint lookup (key : string) (members : list (string * json))
  : option json :=
  match members with
  | [] => None
  | (k, v) :: rest => if String.eqb key k then Some v else lookup key rest
  end.

Definition is_string (key : string) (v : json) : bool :=
  match v with
  | JString s => String.eqb key s
  | _ => false
  end.

(** [key in data]: a key of a dict, an element of a list, a substring of
    a string; anything else is not a container. *)
Definition contains (key : string) (data : json) : py bool :=
  match data with
  | JObject members =>
      Return (match lookup key members with Some _ => true | None => false end)
  | JArray items => Return (existsb (is_string key) items)
  | JString s =>
      Return (match String.index 0 key s with Some _ => true | None => false end)
  | JNull | JBool _ | JNumber _ => Throw TypeError
  end.

(** [data[key]] for a string [key]. *)
Definition getitem (data : json) (key : string) : py json :=
  match data with
  | JObject members =>
      match lookup key members with
      | Some v => Return v
      | None => Throw (KeyError key)
      end
  | _ => Throw TypeError
  end.

(** [data.get(key, default)]: only a dict has the method. *)
Definition get (data : json) (key : string) (default : json) : py json :=
  match data with
  | JObject members =>
      Return (match lookup key members with Some v => v | None => default end)
  | _ => Throw AttributeError
  end.

(** What a [for] loop over [data] visits: the items of a list, the keys
    of a dict, the characters of a string. *)
Definition iterate (data : json) : py (list json) :=
  match data with
  | JArray items => Return items
  | JObject members => Return (map (fun kv => JString (fst kv)) members)
  | JString s =>
      Return (map (fun c => JString (String c EmptyString))
                  (list_ascii_of_string s))
  | JNull | JBool _ | JNumber _ => Throw TypeError
  end.

(** A loop that builds a list from the items it visits and stops at the
    first exception. *)
Fixpoint traverse {A B} (f : A -> py B) (l : list A) : py (list B) :=
  match l with
  | [] => Return []
  | x :: rest =>
      bind (f x) (fun y =>
      bind (traverse f rest) (fun ys => Return (y :: ys)))
  end.

(** [os.getenv]: the variables the endpoints read. *)
Record environment : Type := {
  FB_APP_ID : option string;
  FB_APP_SECRET : option string;
  REDIRECT_URI : option string
}.

(** One [client.get(url, params=params)]; a parameter set to [None] has
    no value, and the integer [100] of [limit] goes out as its digits. *)
Record get_request : Type := {
  url : string;
  params : list (string * option string)
}.

(** What comes back: a body that parses as JSON, one that does not, or no
    response at all. *)
Inductive answer : Type :=
| Json (status_code : Z) (data : json)
| NotJson (status_code : Z)
| Unreachable (msg : string).

Definition graph_api : Type := get_request -> answer.

(** [response = await client.get(...); data = response.json()] *)
Definition get_json (g : graph_api) (rq : get_request) : py json :=
  match g rq with
  | Json _ data => Return data
  | NotJson _ => Throw JSONDecodeError
  | Unreachable msg => Throw (TransportError msg)
  end.

(** Lines 40-43. *)
Record FacebookPage : Type := {
  fp_id : string;
  fp_name : string;
  fp_category : option string
}.

(** Lines 45-50. *)
Record ConversationMessage : Type := {
  cm_id : string;
  cm_sender_name : string;
  cm_sender_id : string;
  cm_message : string;
  cm_created_time : string
}.

Section Handlers.

(** [str(e)], as Python and the libraries in use define it. *)
Variable str : error -> string.

(** How pydantic validates a value for a field declared [str]. *)
Variable str_field : json -> option string.

Local Notation "x <- m ;; k" := (bind m (fun x => k))
  (at level 61, m at next level, right associativity).

(** The handler every endpoint ends with:
    [except Exception as e: raise HTTPException(status_code=500, detail=str(e))] *)
Definition internal_error {A} (e : error) : py A :=
  Throw (HTTPException 500 (JString (str e))).

(** Lines 87-111. *)
Definition facebook_auth_callback (env : environment) (code : string)
    (g : graph_api) : py json :=
  try_except
    (let redirect_uri :=
       match REDIRECT_URI env with
       | Some uri => uri
       | None => "http://localhost:8000/api/auth/facebook/callback"%string
       end in
     let token_url := (FB_GRAPH_URL ++ "/oauth/access_token")%string in
     let params :=
       [("client_id", FB_APP_ID env);
        ("client_secret", FB_APP_SECRET env);
        ("redirect_uri", Some redirect_uri);
        ("code", Some code)]%string in
     data <- get_json g {| url := token_url; params := params |} ;;
     found <- contains "access_token" data ;;
     if negb found
     then Throw (HTTPException 400 (JString "Failed to get access token"))
     else
       token <- getitem data "access_token" ;;
       token_type <- get data "token_type" (JString "bearer") ;;
       Return (JObject [("access_token", token);
                        ("token_type", token_type)]%string))
    internal_error.

(** Lines 127-128, 150-151 and 171-172:
    [if "error" in data: raise HTTPException(400, data["error"]["message"])] *)
Definition raise_api_error (data : json) : py unit :=
  found <- contains "error" data ;;
  if found
  then
    err <- getitem data "error" ;;
    detail <- getitem err "message" ;;
    Throw (HTTPException 400 detail)
  else Return tt.

(** Line 130, a [FacebookPage] built with the members of [page] as its
    keyword arguments: [page] has to be a mapping; [id] and [name] are
    required, [category] may be missing or [None], other members are
    ignored. *)
Definition new_FacebookPage (page : json) : py FacebookPage :=
  match page with
  | JObject kwargs =>
      match lookup "id" kwargs, lookup "name" kwargs with
      | Some i, Some n =>
          match str_field i, str_field n,
                match lookup "category" kwargs with
                | None | Some JNull => Some None
                | Some c => option_map Some (str_field c)
                end with
          | Some i', Some n', Some c' =>
              Return {| fp_id := i'; fp_name := n'; fp_category := c' |}
          | _, _, _ => Throw ValidationError
          end
      | _, _ => Throw ValidationError
      end
  | _ => Throw TypeError
  end.

(** Lines 114-133. *)
Definition get_user_pages (access_token : string) (g : graph_api)
  : py (list FacebookPage) :=
  try_except
    (let url := (FB_GRAPH_URL ++ "/me/accounts")%string in
     let params :=
       [("access_token", Some access_token);
        ("fields", Some "id,name,category")]%string in
     data <- get_json g {| url := url; params := params |} ;;
     _ <- raise_api_error data ;;
     found <- get data "data" (JArray []) ;;
     pages <- iterate found ;;
     traverse new_FacebookPage pages)
    internal_error.

(** Lines 136-155. *)
Definition get_page_conversations (page_id access_token : string)
    (g : graph_api) : py json :=
  try_except
    (let url := (FB_GRAPH_URL ++ "/" ++ page_id ++ "/conversations")%string in
     let params :=
       [("access_token", Some access_token);
        ("fields", Some "id,participants,senders,created_time");
        ("limit", Some "100")]%string in
     data <- get_json g {| url := url; params := params |} ;;
     _ <- raise_api_error data ;;
     get data "data" (JArray []))
    internal_error.

(** The five fields of a [ConversationMessage], validated together. *)
Definition new_ConversationMessage (id sender_name sender_id message
    created_time : json) : py ConversationMessage :=
  match str_field id, str_field sender_name, str_field sender_id,
        str_field message, str_field created_time with
  | Some i, Some n, Some s, Some m, Some t =>
      Return {| cm_id := i; cm_sender_name := n; cm_sender_id := s;
                cm_message := m; cm_created_time := t |}
  | _, _, _, _, _ => Throw ValidationError
  end.

(** Lines 176-182: the arguments are evaluated from left to right, then
    the model is built. *)
Definition message_of (msg : json) : py ConversationMessage :=
  id <- getitem msg "id" ;;
  sender <- getitem msg "from" ;;
  sender_name <- getitem sender "name" ;;
  sender' <- getitem msg "from" ;;
  sender_id <- getitem sender' "id" ;;
  message <- get msg "message" (JString "") ;;
  created_time <- getitem msg "created_time" ;;
  new_ConversationMessage id sender_name sender_id message created_time.

(** Lines 157-187. *)
Definition get_conversation_messages (conversation_id access_token : string)
    (g : graph_api) : py (list ConversationMessage) :=
  try_except
    (let url :=
       (FB_GRAPH_URL ++ "/" ++ conversation_id ++ "/messages")%string in
     let params :=
       [("access_token", Some access_token);
        ("fields", Some "id,from{name},message,created_time");
        ("limit", Some "100")]%string in
     data <- get_json g {| url := url; params := params |} ;;
     _ <- raise_api_error data ;;
     found <- get data "data" (JArray []) ;;
     items <- iterate found ;;
     traverse message_of items)
    internal_error.

End Handlers.

(** The request each endpoint sends. *)
Definition token_request (env : environment) (code : string) : get_request :=
  {| url := (FB_GRAPH_URL ++ "/oauth/access_token")%string;
     params :=
       [("client_id", FB_APP_ID env);
        ("client_secret", FB_APP_SECRET env);
        ("redirect_uri",
         Some match REDIRECT_URI env with
              | Some uri => uri
              | None => "http://localhost:8000/api/auth/facebook/callback"
              end);
        ("code", Some code)]%string |}.

Definition pages_request (access_token : string) : get_request :=
  {| url := (FB_GRAPH_URL ++ "/me/accounts")%string;
     params :=
       [("access_token", Some access_token);
        ("fields", Some "id,name,category")]%string |}.

Definition conversations_request (page_id access_token : string)
  : get_request :=
  {| url := (FB_GRAPH_URL ++ "/" ++ page_id ++ "/conversations")%string;
     params :=
       [("access_token", Some access_token);
        ("fields", Some "id,participants,senders,created_time");
        ("limit", Some "100")]%string |}.

Definition messages_request (conversation_id access_token : string)
  : get_request :=
  {| url := (FB_GRAPH_URL ++ "/" ++ conversation_id ++ "/messages")%string;
     params :=
       [("access_token", Some access_token);
        ("fields", Some "id,from{name},message,created_time");
        ("limit", Some "100")]%string |}.

(** [data.get("data", [])] on a dict. *)
Definition data_or_empty (members : list (string * json)) : json :=
  match lookup "data" members with
  | Some d => d
  | None => JArray []
  end.

(** The item [item] of the answer holds what the message [c] says: it is
    an object with an [id], a [from] object with [name] and [id], and a
    [created_time], all accepted as strings, and [c] has the text of its
    [message] member, or the empty string when it has none. *)
Definition message_reads_as (str_field : json -> option string)
    (item : json) (c : ConversationMessage) : Prop :=
  exists members sender i n sid t,
    item = JObject members /\
    lookup "id" members = Some i /\
    lookup "from" members = Some (JObject sender) /\
    lookup "name" sender = Some n /\
    lookup "id" sender = Some sid /\
    lookup "created_time" members = Some t /\
    str_field i = Some (cm_id c) /\
    str_field n = Some (cm_sender_name c) /\
    str_field sid = Some (cm_sender_id c) /\
    str_field (match lookup "message" members with
               | Some text => text
               | None => JString ""
               end) = Some (cm_message c) /\
    str_field t = Some (cm_created_time c).

(** The item [item] of the answer holds what the page [p] says: it is an
    object with an [id] and a [name] accepted as strings, and [p] has its
    [category] when that is a string and none when the member is missing
    or [null]. *)
Definition page_reads_as (str_field : json -> option string)
    (item : json) (p : FacebookPage) : Prop :=
  exists kwargs i n,
    item = JObject kwargs /\
    lookup "id" kwargs = Some i /\
    lookup "name" kwargs = Some n /\
    str_field i = Some (fp_id p) /\
    str_field n = Some (fp_name p) /\
    match lookup "category" kwargs with
    | None | Some JNull => fp_category p = None
    | Some c => exists s, str_field c = Some s /\ fp_category p = Some s
    end.

(** *** Scenarios *)

(** A Graph API that gives the same answer to every request. *)
Definition always (a : answer) : graph_api := fun _ => a.

(** A validation that accepts strings only. *)
Definition strings_only (v : json) : option string :=
  match v with
  | JString s => Some s
  | _ => None
  end.

(** A [str] that says nothing, for where its value does not matter. *)
Definition silent (e : error) : string := EmptyString.

(** The Graph API reporting an expired token. *)
Definition expired_token : list (string * json) :=
  [("error",
    JObject [("message", JString "Error validating access token");
             ("code", JNumber "190")])]%string.

(** A conversation of two messages, the second one without text. *)
Definition two_messages : list (string * json) :=
  [("data",
    JArray
      [JObject [("id", JString "m_1");
                ("from", JObject [("name", JString "Amal");
                                  ("id", JString "7001")]);
                ("message", JString "hello");
                ("created_time", JString "2024-03-01T10:00:00+0000")];
       JObject [("id", JString "m_2");
                ("from", JObject [("name", JString "Page");
                                  ("id", JString "1029384756")]);
                ("created_time", JString "2024-03-01T10:05:00+0000")]])]%string.

(** Two pages, the second one without a category. *)
Definition two_pages : list (string * json) :=
  [("data",
    JArray
      [JObject [("id", JString "1029384756");
                ("name", JString "Mowafy");
                ("category", JString "Shopping")];
       JObject [("id", JString "5647382910");
                ("name", JString "Second")]])]%string.

(** The same conversation followed by an item that has no [from]. *)
Definition broken_third_message : list (string * json) :=
  [("data",
    JArray
      ([JObject [("id", JString "m_1");
                 ("from", JObject [("name", JString "Amal");
                                   ("id", JString "7001")]);
                 ("message", JString "hello");
                 ("created_time", JString "2024-03-01T10:00:00+0000")]]
       ++ JObject [("id", JString "m_3");
                   ("created_time", JString "2024-03-01T10:09:00+0000")]
       :: [JObject [("id", JString "m_4");
                    ("from", JObject [("name", JString "Amal");
                                      ("id", JString "7001")]);
                    ("created_time", JString "2024-03-01T10:10:00+0000")]]))
  ]%string.

(** A token answer without [token_type]. *)
Definition bare_token : list (string * json) :=
  [("access_token", JString "EAAB")]%string.

End Graph.

(** ** Counting outcomes *)

Lemma count_cons o x l :
  count o (x :: l) = ((if Outcome_eqb o x then 1 else 0) + count o l)%nat.
Proof. unfold count; simpl; destruct (Outcome_eqb o x); reflexivity. Qed.

Lemma count_total l : (count Success l + count Failure l = List.length l)%nat.
Proof.
  induction l as [|x l IH]; [reflexivity|].
  rewrite !count_cons; destruct x; simpl; lia.
Qed.

Lemma outcomes_length config ep c l :
  List.length (outcomes config ep c l) = List.length l.
Proof.
  revert c; induction l as [|r l IH]; intros c; simpl; [reflexivity|].
  now rewrite IH.
Qed.

(** ** Traces *)

Lemma posts_app t u : posts (t ++ u) = posts t ++ posts u.
Proof. apply flat_map_app. Qed.

Lemma sleeps_app t u : sleeps (t ++ u) = sleeps t ++ sleeps u.
Proof. apply flat_map_app. Qed.

Lemma printed_app t u : printed (t ++ u) = printed t ++ printed u.
Proof. apply flat_map_app. Qed.

(** Proofs about [paced] all go by the same induction on the items. *)
Ltac paced_induction l :=
  let index := fresh "index" in
  let IH := fresh "IH" in
  intros index; revert index;
  induction l as [|? l IH]; intros index; simpl;
  [reflexivity | now rewrite IH].

Lemma posts_paced config l :
  forall index, posts (paced config index l) = map (request_for config) l.
Proof. paced_induction l. Qed.

Lemma sleeps_paced config l :
  forall index,
    sleeps (paced config index l)
    = map (next_delay config) (seq index (List.length l)).
Proof. paced_induction l. Qed.

Lemma printed_paced config l :
  forall index, printed (paced config index l) = [].
Proof. paced_induction l. Qed.

Lemma posts_run_events config l :
  forall index,
    posts (run_events config index l)
    = map (request_for config) (reached config index l).
Proof.
  induction l as [|r l IH]; intros index; simpl; [reflexivity|].
  destruct (overflows (next_delay config index)); simpl; [reflexivity|].
  now rewrite IH.
Qed.

Lemma printed_run_events config l :
  forall index, printed (run_events config index l) = [].
Proof.
  induction l as [|r l IH]; intros index; simpl; [reflexivity|].
  destruct (overflows (next_delay config index)); simpl; [reflexivity|].
  apply IH.
Qed.

Lemma nth_error_seq_from_zero n k :
  (k < n)%nat -> nth_error (seq 0 n) k = Some k.
Proof.
  intros Hk.
  rewrite (nth_error_nth' _ 0%nat) by (now rewrite length_seq).
  now rewrite seq_nth.
Qed.

(** ** Sleeping *)

Lemma float_limit_pos : 0 < float_limit.
Proof. reflexivity. Qed.

Lemma overflows_spec d : overflows d = true <-> float_limit <= d.
Proof.
  pose proof float_limit_pos; unfold overflows.
  rewrite andb_true_iff, Z.ltb_lt, Z.leb_le; lia.
Qed.

Lemma fits d : d < float_limit -> overflows d = false.
Proof.
  intros Hd; destruct (overflows d) eqn:E; [|reflexivity].
  apply overflows_spec in E; lia.
Qed.

Lemma sleep_returns d s :
  overflows d = false -> sleep d s = emit (ESleep d) s.
Proof.
  unfold sleep, overflows; intros H.
  destruct (Z.leb_spec d 0) as [L|L]; [reflexivity|].
  destruct (Z.ltb_spec 0 d) as [_|L']; [|lia].
  simpl in H; now rewrite H.
Qed.

Lemma sleep_raises d s :
  overflows d = true ->
  sleep d s = (Raise (OverflowError "int too large to convert to float"), s).
Proof.
  unfold sleep, overflows; intros H.
  apply andb_true_iff in H as [H0 H1]; apply Z.ltb_lt in H0.
  destruct (Z.leb_spec d 0) as [L|L]; [lia|].
  now rewrite H1.
Qed.

(** The value slept on is one of the two delays of the job. *)
Lemma next_delay_cases config index :
  next_delay config index = batch_delay config
  \/ next_delay config index = delay_between_messages config.
Proof. unfold next_delay; destruct (_ && _); [now left|now right]. Qed.

Lemma delays_fit_next_delay config index :
  delays_fit config -> overflows (next_delay config index) = false.
Proof.
  intros [Hd Hb]; apply fits.
  destruct (next_delay_cases config index) as [-> | ->]; assumption.
Qed.

(** ** How the loop ends *)

Lemma loop_result_cases config index l :
  loop_result config index l = Ok tt
  \/ loop_result config index l
     = Raise (OverflowError "int too large to convert to float").
Proof.
  revert index; induction l as [|r l IH]; intros index; simpl;
    [now left|].
  destruct (overflows (next_delay config index)); [now right|apply IH].
Qed.

(** A loop that runs out of items has slept after every one of them. *)
Lemma loop_result_Ok config l :
  forall index,
    loop_result config index l = Ok tt ->
    reached config index l = l /\
    run_events config index l = paced config index l.
Proof.
  induction l as [|r l IH]; intros index; simpl; [now split|].
  destruct (overflows (next_delay config index)); [discriminate|].
  intros H; destruct (IH _ H) as [-> ->]; now split.
Qed.


Lemma delays_fit_loop_result config l :
  delays_fit config -> forall index, loop_result config index l = Ok tt.
Proof.
  intros Hfit; induction l as [|r l IH]; intros index; simpl;
    [reflexivity|].
  now rewrite delays_fit_next_delay.
Qed.


(** ** One delivery *)

(** [deliver] never raises, issues exactly one request and moves exactly
    the counter that [outcome_of] names. *)
Lemma deliver_counts config ep r s :
  deliver config ep r s
  = (Ok tt,
     record_outcome (outcome_of (ep (calls s) (request_for config r)))
                    (request_for config r) s).
Proof.
  unfold deliver, try_except, bind, client_post, outcome_of, record_outcome.
  destruct (ep (calls s) (request_for config r)) as [resp|e]; simpl.
  - destruct (status_code resp =? 200); reflexivity.
  - reflexivity.
Qed.

Lemma after_loop_nil config ep index s : after_loop config ep index [] s = s.
Proof.
  destruct s; unfold after_loop; simpl.
  now rewrite !Nat.add_0_r, app_nil_r.
Qed.

(** The loop after an iteration whose sleep returned. *)
Lemma after_loop_cons config ep index r rest s :
  overflows (next_delay config index) = false ->
  after_loop config ep (S index) rest
    (snd (emit (ESleep (next_delay config index))
            (record_outcome (outcome_of (ep (calls s) (request_for config r)))
                            (request_for config r) s)))
  = after_loop config ep index (r :: rest) s.
Proof.
  intros E; destruct s as [a b c q t]; unfold after_loop; simpl.
  rewrite E, !count_cons.
  destruct (outcome_of (ep c (request_for config r))); simpl;
    f_equal; try lia; now rewrite <- !app_assoc.
Qed.

(** The loop after an iteration whose sleep raised. *)
Lemma after_loop_stop config ep index r rest s :
  overflows (next_delay config index) = true ->
  record_outcome (outcome_of (ep (calls s) (request_for config r)))
                 (request_for config r) s
  = after_loop config ep index (r :: rest) s.
Proof.
  intros E; destruct s as [a b c q t]; unfold after_loop; simpl.
  rewrite E; unfold count, record_outcome; simpl.
  destruct (outcome_of (ep c (request_for config r))); simpl;
    f_equal; lia.
Qed.

(** What the loop leaves when it has gone through the whole list. *)
Lemma after_loop_whole config ep index l s :
  loop_result config index l = Ok tt ->
  after_loop config ep index l s = after_items config ep index l s.
Proof.
  intros H; destruct (loop_result_Ok _ _ _ H) as [Hr He].
  unfold after_loop, after_items; now rewrite Hr, He.
Qed.

(** The steps that open the coroutine up to its loop. *)
Ltac enter_task :=
  unfold send_messages_task, bind, try_except, dispatch, set_counters;
  cbv beta iota.

(** An empty recipient list: the coroutine resets its counters and
    returns, whatever the pacing parameters. *)
Lemma task_empty config ep s :
  recipient_ids config = [] ->
  send_messages_task config ep s = (Ok tt, snd (set_counters 0 0 s)).
Proof. intros Hr; enter_task; rewrite Hr; reflexivity. Qed.

(** ** Runs with a usable [batch_size] *)

Section NonZeroBatchSize.

Variable config : MessageSendConfig.
Variable ep : endpoint.
Hypothesis batch_size_nonzero : batch_size config <> 0.

Lemma delay_logic_defined index s :
  delay_logic config index s = sleep (next_delay config index) s.
Proof.
  unfold delay_logic, py_mod, next_delay.
  destruct (Z.eqb_spec (batch_size config) 0) as [E|_]; [contradiction|].
  unfold bind, ret.
  destruct ((_ =? 0) && _); reflexivity.
Qed.

(** The loop ends as [loop_result] says, in the state [after_loop]
    describes. *)
Lemma for_enumerate_run l :
  forall index s,
    for_enumerate l index (loop_body config ep) s
    = (loop_result config index l, after_loop config ep index l s).
Proof.
  induction l as [|item rest IH]; intros index s; simpl.
  - now rewrite after_loop_nil.
  - unfold bind at 1, loop_body, bind at 1.
    rewrite deliver_counts, delay_logic_defined.
    destruct (overflows (next_delay config index)) eqn:E.
    + rewrite sleep_raises by assumption.
      now rewrite (after_loop_stop _ _ _ _ rest _ E).
    + rewrite sleep_returns by assumption.
      unfold emit at 1.
      rewrite IH, <- after_loop_cons by assumption; reflexivity.
Qed.

(** A loop that runs out of items: the coroutine returns after the whole
    list. *)
Lemma task_completes s :
  loop_result config 0 (recipient_ids config) = Ok tt ->
  send_messages_task config ep s
  = (Ok tt,
     after_items config ep 0 (recipient_ids config)
       (snd (set_counters 0 0 s))).
Proof.
  intros H; enter_task; rewrite for_enumerate_run, H.
  now rewrite after_loop_whole.
Qed.

(** A sleep that raises: the handler of line 235 takes over. *)
Lemma task_stopped s e :
  loop_result config 0 (recipient_ids config) = Raise e ->
  send_messages_task config ep s
  = on_run_error e
      (after_loop config ep 0 (recipient_ids config)
         (snd (set_counters 0 0 s))).
Proof. intros H; enter_task; now rewrite for_enumerate_run, H. Qed.

Lemma dispatch_result :
  outcome (dispatch config ep) = loop_result config 0 (recipient_ids config).
Proof. unfold outcome, dispatch; now rewrite for_enumerate_run. Qed.

End NonZeroBatchSize.

(** ** Runs with [batch_size = 0] *)

Section ZeroBatchSize.

Variable config : MessageSendConfig.
Variable ep : endpoint.
Hypothesis batch_size_zero : batch_size config = 0.

Lemma delay_logic_zero index s :
  delay_logic config index s
  = (Raise (ZeroDivisionError "integer modulo by zero"), s).
Proof.
  unfold delay_logic, py_mod; rewrite batch_size_zero; reflexivity.
Qed.

(** The first iteration raises after its send. *)
Lemma for_enumerate_zero item rest index s :
  for_enumerate (item :: rest) index (loop_body config ep) s
  = (Raise (ZeroDivisionError "integer modulo by zero"),
     record_outcome (outcome_of (ep (calls s) (request_for config item)))
                    (request_for config item) s).
Proof.
  simpl; unfold bind at 1, loop_body, bind at 1.
  rewrite deliver_counts, delay_logic_zero; reflexivity.
Qed.

(** With somebody to write to, the run ends in the handler of line 235
    after one delivery. *)
Lemma task_zero r rest s :
  recipient_ids config = r :: rest ->
  send_messages_task config ep s
  = on_run_error (ZeroDivisionError "integer modulo by zero")
      (record_outcome
         (outcome_of (ep (calls s) (request_for config r)))
         (request_for config r) (snd (set_counters 0 0 s))).
Proof.
  intros Hr; enter_task; rewrite Hr.
  rewrite for_enumerate_zero; reflexivity.
Qed.

Lemma dispatch_aborts r rest :
  recipient_ids config = r :: rest -> ~ completes_normally config ep.
Proof.
  intros Hr; unfold completes_normally, outcome, dispatch.
  rewrite Hr, for_enumerate_zero; discriminate.
Qed.

End ZeroBatchSize.

(** ** The coroutine as a whole *)

(** The four ways a run can go. *)
Lemma run_cases config :
  (batch_size config <> 0 /\
   loop_result config 0 (recipient_ids config) = Ok tt)
  \/ (batch_size config <> 0 /\
      loop_result config 0 (recipient_ids config)
      = Raise (OverflowError "int too large to convert to float"))
  \/ (batch_size config = 0 /\ recipient_ids config = [])
  \/ (batch_size config = 0 /\
      exists r rest, recipient_ids config = r :: rest).
Proof.
  destruct (Z.eq_dec (batch_size config) 0) as [Hb|Hb].
  - right; right.
    destruct (recipient_ids config) as [|r rest]; [now left|right].
    split; [assumption|now exists r, rest].
  - destruct (loop_result_cases config 0 (recipient_ids config)) as [H|H];
      [left|right; left]; now split.
Qed.

Ltac by_run_cases config :=
  let Hb := fresh "Hb" in
  let Hl := fresh "Hl" in
  let Hr := fresh "Hr" in
  let r := fresh "r" in
  let rest := fresh "rest" in
  destruct (run_cases config)
    as [[Hb Hl]|[[Hb Hl]|[[Hb Hr]|[Hb (r & rest & Hr)]]]].

(** The coroutine never lets an exception out. *)
Lemma task_returns config ep s :
  fst (send_messages_task config ep s) = Ok tt.
Proof.
  by_run_cases config.
  - now rewrite task_completes.
  - now rewrite (task_stopped _ _ Hb _ _ Hl).
  - now rewrite task_empty.
  - now rewrite (task_zero _ _ Hb r rest).
Qed.

(** A run with a usable [batch_size] and delays that fit completes. *)
Lemma dispatch_completes config ep :
  batch_size config <> 0 -> delays_fit config ->
  completes_normally config ep.
Proof.
  intros Hb Hfit; unfold completes_normally.
  rewrite dispatch_result by assumption.
  now apply delays_fit_loop_result.
Qed.

(** A run that completes normally went through its whole list, or had
    nobody to write to. *)
Lemma completes_inv config ep :
  completes_normally config ep ->
  (batch_size config <> 0 /\
   loop_result config 0 (recipient_ids config) = Ok tt)
  \/ recipient_ids config = [].
Proof.
  intros Hc; by_run_cases config.
  - left; now split.
  - unfold completes_normally in Hc.
    rewrite dispatch_result in Hc by assumption; congruence.
  - now right.
  - now destruct (dispatch_aborts config ep Hb r rest Hr).
Qed.


(** What the coroutine adds to the trace depends neither on what the
    trace already holds nor on what the endpoint answers. *)
Lemma task_trace_frame config ep ep' s :
  trace (snd (send_messages_task config ep s))
  = trace s ++ trace (final (send_messages_task config ep')).
Proof.
  unfold final; by_run_cases config.
  - rewrite !task_completes by assumption; reflexivity.
  - rewrite !(task_stopped _ _ Hb _ _ Hl); simpl.
    now rewrite <- app_assoc.
  - rewrite !task_empty by assumption; simpl; now rewrite app_nil_r.
  - rewrite !(task_zero _ _ Hb r rest) by assumption; simpl.
    now rewrite <- app_assoc.
Qed.

(** With a usable [batch_size] and delays that fit, every recipient is
    written to once, in the order of the list. *)
Lemma every_recipient_attempted_in_order config ep :
  batch_size config <> 0 -> delays_fit config ->
  posts (trace (final (send_messages_task config ep)))
  = map (request_for config) (recipient_ids config).
Proof.
  intros Hb Hfit; unfold final.
  rewrite task_completes by (assumption || now apply delays_fit_loop_result).
  simpl; apply posts_paced.
Qed.

(** ** Pacing *)

(** C1, as amended.  For a job whose [batch_size] is not zero and whose
    two delays are values [asyncio.sleep] can sleep on, the run is a
    request to each recipient followed by one sleep, the last request
    included.  After the send at the 1-based position [i] it sleeps on
    [batch_delay] when [i < total] and [i % batch_size == 0], and on
    [delay_between_messages] in every other case: when [i < total] and
    [i % batch_size != 0], and also when [i == total].  The wait is the
    value slept on, or nothing when that value is not positive. *)
Theorem wait_after_each_send config ep :
  batch_size config <> 0 ->
  delays_fit config ->
  let total := List.length (recipient_ids config) in
  let run := trace (final (send_messages_task config ep)) in
  run = paced config 0 (recipient_ids config) /\
  List.length (waits run) = total /\
  forall i : nat, (1 <= i <= total)%nat ->
    exists d,
      nth_error (sleeps run) (i - 1) = Some d /\
      nth_error (waits run) (i - 1) = Some (Z.max 0 d) /\
      ((i < total)%nat -> Z.of_nat i mod batch_size config = 0 ->
       d = batch_delay config) /\
      ((i < total)%nat -> Z.of_nat i mod batch_size config <> 0 ->
       d = delay_between_messages config) /\
      (i = total -> d = delay_between_messages config).
Proof.
  intros Hb Hfit total run; subst run; unfold final, waits.
  rewrite task_completes by (assumption || now apply delays_fit_loop_result).
  simpl trace.
  split; [reflexivity|].
  rewrite sleeps_paced; fold total.
  split; [now rewrite !length_map, length_seq|].
  intros i Hi.
  assert (Hnth : nth_error (map (next_delay config) (seq 0 total)) (i - 1)
                 = Some (next_delay config (i - 1)))
    by (apply map_nth_error, nth_error_seq_from_zero; lia).
  exists (next_delay config (i - 1)); split; [exact Hnth|].
  split; [now apply map_nth_error|].
  unfold next_delay; fold total.
  replace (Z.of_nat (i - 1) + 1) with (Z.of_nat i) by lia.
  destruct (Z.eqb_spec (Z.of_nat i mod batch_size config) 0) as [E|E];
    destruct (Z.ltb_spec (Z.of_nat i) (Z.of_nat total)) as [L|L];
    simpl; repeat split; intros; try reflexivity; try contradiction; lia.
Qed.

Lemma wait_after_each_send_witness :
  batch_size (job twelve 5 10 30) <> 0 /\
  delays_fit (job twelve 5 10 30) /\
  List.length
    (waits (trace (final (send_messages_task (job twelve 5 10 30)
                                             accepts_all))))
  = 12%nat.
Proof.
  assert (H : batch_size (job twelve 5 10 30) <> 0) by (simpl; lia).
  assert (Hfit : delays_fit (job twelve 5 10 30))
    by (split; vm_compute; reflexivity).
  split; [exact H|split; [exact Hfit|]].
  exact (proj1 (proj2 (wait_after_each_send (job twelve 5 10 30)
                                            accepts_all H Hfit))).
Defined.

(** C1, as the specification states it, fails on its own scenario: with
    12 recipients, [batch_size=10], 5 s between messages and 30 s between
    batches the run waits 5 s after the twelfth send too, so the waits
    are 5,5,5,5,5,5,5,5,5,30,5,5 and not 5,5,5,5,5,5,5,5,5,30,5,0. *)
Lemma twelve_recipients_wait_after_last_send :
  waits (trace (final (send_messages_task (job twelve 5 10 30)
                                          accepts_all)))
  = [5; 5; 5; 5; 5; 5; 5; 5; 5; 30; 5; 5]
  /\ waits (trace (final (send_messages_task (job twelve 5 10 30)
                                             accepts_all)))
     <> [5; 5; 5; 5; 5; 5; 5; 5; 5; 30; 5; 0].
Proof.
  assert (E : waits (trace (final (send_messages_task (job twelve 5 10 30)
                                                     accepts_all)))
              = [5; 5; 5; 5; 5; 5; 5; 5; 5; 30; 5; 5])
    by (vm_compute; reflexivity).
  split; [exact E|rewrite E; discriminate].
Qed.

(** ** Tallies *)

(** C2.  A run with a non-zero [batch_size] and delays that
    [asyncio.sleep] can sleep on completes normally, and when a run
    completes normally its counters add up to the number of recipients:
    [successful] is the number of deliveries counted as [Success] and
    [failed] the number counted as [Failure]. *)
Theorem tallies_add_up config ep :
  (batch_size config <> 0 -> delays_fit config ->
   completes_normally config ep) /\
  (completes_normally config ep ->
   let s := final (send_messages_task config ep) in
   let results := outcomes config ep 0 (recipient_ids config) in
   (successful s + failed s = List.length (recipient_ids config))%nat /\
   successful s = count Success results /\
   failed s = count Failure results).
Proof.
  split; [apply dispatch_completes|].
  intros Hc s results; subst s results; unfold final.
  destruct (completes_inv _ _ Hc) as [[Hb Hl]|Hr].
  - rewrite task_completes by assumption; simpl.
    repeat split.
    now rewrite count_total, outcomes_length.
  - rewrite task_empty by assumption; rewrite Hr; simpl.
    repeat split.
Qed.

Lemma tallies_add_up_witness :
  completes_normally (job ten 5 10 30) fails_3_and_7 /\
  (successful (final (send_messages_task (job ten 5 10 30) fails_3_and_7))
   + failed (final (send_messages_task (job ten 5 10 30) fails_3_and_7))
   = 10)%nat.
Proof.
  assert (H : completes_normally (job ten 5 10 30) fails_3_and_7)
    by (vm_compute; reflexivity).
  split; [exact H|].
  exact (proj1 (proj2 (tallies_add_up (job ten 5 10 30) fails_3_and_7) H)).
Defined.

(** The scenario of C2: ten recipients, the third and the seventh
    delivery fail, all ten are attempted and the counters end at 8 and 2. *)
Example ten_recipients_two_failures :
  let s := final (send_messages_task (job ten 5 10 30) fails_3_and_7) in
  List.length (posts (trace s)) = 10%nat
  /\ successful s = 8%nat /\ failed s = 2%nat.
Proof. vm_compute; repeat split. Qed.

(** ** Submission *)

(** The endpoint function queues the task and returns; it raises nothing,
    sends nothing and looks at no field but [recipient_ids]. *)
Lemma send_messages_queues config s :
  send_messages config s
  = (Ok {| status := "processing";
           message := ("Started sending "
                       ++ str_of_nat (List.length (recipient_ids config))
                       ++ " messages")%string;
           total_recipients := List.length (recipient_ids config) |},
     snd (add_task config s)).
Proof. reflexivity. Qed.

(** The events of a served request: the response, then the run. *)
Lemma serve_trace config ep :
  exists a,
    outcome (send_messages config) = Ok a /\
    trace (final (serve config ep))
    = ERespond a :: trace (final (send_messages_task config ep)).
Proof.
  eexists; split; [reflexivity|].
  unfold final, serve, bind at 1.
  rewrite send_messages_queues; cbv beta iota.
  unfold bind at 1, emit; cbv beta iota.
  simpl background_tasks; simpl run_tasks.
  unfold bind.
  match goal with
  | |- context [send_messages_task config ep ?s0] =>
      pose proof (task_returns config ep s0) as Hret;
      pose proof (task_trace_frame config ep ep s0) as Hframe;
      destruct (send_messages_task config ep s0) as [r s1]
  end.
  simpl in Hret, Hframe; subst r; simpl.
  exact Hframe.
Qed.

(** Whatever the pacing parameters, the first recipient is written to. *)
Lemma first_recipient_attempted config ep r rest :
  recipient_ids config = r :: rest ->
  exists more,
    posts (trace (final (send_messages_task config ep)))
    = request_for config r :: more.
Proof.
  intros Hr; unfold final; by_run_cases config.
  - exists (map (request_for config) rest).
    rewrite task_completes by assumption; simpl.
    now rewrite posts_paced, Hr.
  - rewrite (task_stopped _ _ Hb _ _ Hl); simpl.
    rewrite posts_app, posts_run_events, Hr; simpl.
    now eexists.
  - congruence.
  - exists []; now rewrite (task_zero _ _ Hb r rest).
Qed.

(** C3, as amended.  A job with [batch_size = 0], a negative [batch_size]
    or a negative delay is not rejected: the endpoint validates nothing,
    queues the run and answers with the processing acknowledgment, and
    when the recipient list is not empty the run that follows writes at
    least to the first recipient. *)
Theorem submission_is_not_validated config ep :
  batch_size config <= 0 \/ delay_between_messages config < 0
  \/ batch_delay config < 0 ->
  (exists a,
     outcome (send_messages config) = Ok a /\
     status a = "processing"%string /\
     background_tasks (final (send_messages config)) = [config]) /\
  (forall r rest,
     recipient_ids config = r :: rest ->
     exists more,
       posts (trace (final (serve config ep)))
       = request_for config r :: more).
Proof.
  intros _; split.
  - eexists; repeat split.
  - intros r rest Hr.
    destruct (serve_trace config ep) as (a & _ & Ht).
    destruct (first_recipient_attempted config ep r rest Hr) as (more & Hp).
    exists more; rewrite Ht; simpl; exact Hp.
Qed.

Lemma submission_is_not_validated_witness :
  (batch_size (job ["r1"; "r2"]%string 5 0 30) <= 0
   \/ delay_between_messages (job ["r1"; "r2"]%string 5 0 30) < 0
   \/ batch_delay (job ["r1"; "r2"]%string 5 0 30) < 0) /\
  exists a,
    outcome (send_messages (job ["r1"; "r2"]%string 5 0 30)) = Ok a /\
    status a = "processing"%string /\
    background_tasks (final (send_messages (job ["r1"; "r2"]%string 5 0 30)))
    = [job ["r1"; "r2"]%string 5 0 30].
Proof.
  assert (H : batch_size (job ["r1"; "r2"]%string 5 0 30) <= 0
              \/ delay_between_messages (job ["r1"; "r2"]%string 5 0 30) < 0
              \/ batch_delay (job ["r1"; "r2"]%string 5 0 30) < 0)
    by (left; simpl; lia).
  split; [exact H|].
  exact (proj1 (submission_is_not_validated
                  (job ["r1"; "r2"]%string 5 0 30) accepts_all H)).
Defined.

(** C3, as the specification states it, fails: a job with
    [batch_size = 0] and one with a negative delay are both acknowledged
    instead of being refused, and requests go out for them (one for the
    first, one per recipient for the second). *)
Lemma invalid_jobs_are_accepted_and_sent :
  outcome (send_messages (job ["r1"; "r2"]%string 5 0 30))
  = Ok {| status := "processing";
          message := "Started sending 2 messages";
          total_recipients := 2 |}
  /\ List.length
       (posts (trace (final (serve (job ["r1"; "r2"]%string 5 0 30)
                                   accepts_all)))) = 1%nat
  /\ outcome (send_messages (job ["r1"; "r2"]%string (-5) 10 30))
     = Ok {| status := "processing";
             message := "Started sending 2 messages";
             total_recipients := 2 |}
  /\ List.length
       (posts (trace (final (serve (job ["r1"; "r2"]%string (-5) 10 30)
                                   accepts_all)))) = 2%nat.
Proof. vm_compute; repeat split. Qed.

(** C7.  The endpoint answers [{status: "processing", total_recipients}]
    with [total_recipients] the length of the recipient list; it has only
    queued the run when it answers, and in the served request the response
    comes before every event of the run. *)
Theorem submit_acknowledges_before_the_run config ep :
  exists a,
    outcome (send_messages config) = Ok a /\
    status a = "processing"%string /\
    total_recipients a = List.length (recipient_ids config) /\
    background_tasks (final (send_messages config)) = [config] /\
    trace (final (send_messages config)) = [] /\
    trace (final (serve config ep))
    = ERespond a :: trace (final (send_messages_task config ep)).
Proof.
  destruct (serve_trace config ep) as (a & Ha & Ht).
  exists a; split; [exact Ha|].
  unfold outcome in Ha; rewrite send_messages_queues in Ha; simpl in Ha.
  injection Ha as <-.
  repeat split; exact Ht.
Qed.

(** ** Deliveries *)

(** C4 does not hold at [batch_size = 0].  The run of this
    three-recipient job stops after its first request, whatever the
    endpoint answers: the [ZeroDivisionError] of the delay logic is raised
    outside the per-delivery [try], so the second and the third recipient
    are never written to.  For every other [batch_size], and delays
    that [asyncio.sleep] can sleep on,
    [every_recipient_attempted_in_order] gives what C4 says. *)
Lemma zero_batch_size_leaves_recipients_unattempted ep :
  posts (trace (final (send_messages_task
                         (job ["r1"; "r2"; "r3"]%string 5 0 30) ep)))
  = [request_for (job ["r1"; "r2"; "r3"]%string 5 0 30) "r1"].
Proof.
  unfold final.
  rewrite (task_zero (job ["r1"; "r2"; "r3"]%string 5 0 30) ep eq_refl
             "r1"%string ["r2"; "r3"]%string) by reflexivity.
  reflexivity.
Qed.

(** C5, as amended.  One delivery raises nothing and moves exactly one
    counter: [successful] when the request is answered with status 200,
    whatever the body says, and [failed] for every other status and for
    every exception raised by the request. *)
Theorem delivery_is_classified_by_status_alone config ep r s :
  let answer := ep (calls s) (request_for config r) in
  let s' := snd (deliver config ep r s) in
  fst (deliver config ep r s) = Ok tt /\
  ((exists resp, answer = Responded resp /\ status_code resp = 200)
   /\ successful s' = S (successful s) /\ failed s' = failed s
   \/
   (forall resp, answer = Responded resp -> status_code resp <> 200)
   /\ successful s' = successful s /\ failed s' = S (failed s)).
Proof.
  intros answer s'; subst s'; rewrite deliver_counts; fold answer.
  split; [reflexivity|].
  destruct answer as [resp|e]; simpl.
  - destruct (Z.eqb_spec (status_code resp) 200) as [E|E]; simpl.
    + left; repeat split; now exists resp.
    + right; repeat split; intros resp' H; now injection H as <-.
  - right; repeat split; intros resp' H; discriminate H.
Qed.

(** C5, as the specification states it, fails: an answer with status 200
    whose body reports an API error is counted as a success. *)
Lemma error_body_with_status_200_counts_as_success :
  has_error (body error_with_200) = true
  /\ outcome_of (Responded error_with_200) = Success
  /\ successful (final (deliver (job ["r1"]%string 5 10 30)
                                answers_error_with_200 "r1")) = 1%nat
  /\ failed (final (deliver (job ["r1"]%string 5 10 30)
                            answers_error_with_200 "r1")) = 0%nat.
Proof. vm_compute; repeat split. Qed.

(** C6.  A job without recipients completes at once: no request, no
    sleep, nothing printed, and both counters at zero, whatever its
    pacing parameters. *)
Theorem empty_job_completes_at_once config ep :
  recipient_ids config = [] ->
  completes_normally config ep /\
  outcome (send_messages_task config ep) = Ok tt /\
  let s := final (send_messages_task config ep) in
  List.length (recipient_ids config) = 0%nat /\
  successful s = 0%nat /\ failed s = 0%nat /\
  posts (trace s) = [] /\ sleeps (trace s) = [] /\ trace s = [].
Proof.
  intros Hr; unfold completes_normally, outcome, final, dispatch.
  rewrite task_empty by assumption; rewrite Hr; simpl.
  repeat split.
Qed.

Lemma empty_job_completes_at_once_witness :
  recipient_ids (job [] 5 10 30) = [] /\
  completes_normally (job [] 5 10 30) accepts_all.
Proof.
  assert (H : recipient_ids (job [] 5 10 30) = []) by reflexivity.
  split; [exact H|].
  exact (proj1 (empty_job_completes_at_once (job [] 5 10 30) accepts_all H)).
Defined.

(** ** What a run reports *)

(** C8, as amended.  A run that completes normally prints nothing: its
    counters stay local to the coroutine and are dropped when it returns.
    The only line a run ever prints is the error message of a run that
    did not complete, the message of the modulo by zero or of the sleep
    on a value too large, and that line carries no counter. *)
Theorem only_an_aborted_run_is_logged config ep :
  completes_normally config ep
  /\ printed (trace (final (send_messages_task config ep))) = []
  \/
  ~ completes_normally config ep
  /\ (printed (trace (final (send_messages_task config ep)))
      = ["Error in send_messages_task: integer modulo by zero"%string]
      \/ printed (trace (final (send_messages_task config ep)))
         = ["Error in send_messages_task: int too large to convert to float"
           %string]).
Proof.
  unfold final; by_run_cases config.
  - left; split.
    + unfold completes_normally; now rewrite dispatch_result.
    + rewrite task_completes by assumption; simpl.
      apply printed_paced.
  - right; split.
    + unfold completes_normally; rewrite dispatch_result by assumption.
      congruence.
    + right; rewrite (task_stopped _ _ Hb _ _ Hl); simpl.
      now rewrite printed_app, printed_run_events.
  - left; split.
    + unfold completes_normally, outcome, dispatch; now rewrite Hr.
    + now rewrite task_empty.
  - right; split.
    + now apply (dispatch_aborts config ep Hb r rest).
    + left; now rewrite (task_zero _ _ Hb r rest).
Qed.

(** C8, as the specification states it, fails: the ten-recipient run
    with two failed deliveries completes, with counters 8 and 2, and not
    one line is printed. *)
Lemma completed_run_prints_nothing :
  completes_normally (job ten 5 10 30) fails_3_and_7
  /\ successful (final (send_messages_task (job ten 5 10 30) fails_3_and_7))
     = 8%nat
  /\ failed (final (send_messages_task (job ten 5 10 30) fails_3_and_7))
     = 2%nat
  /\ printed (trace (final (send_messages_task (job ten 5 10 30)
                                               fails_3_and_7))) = [].
Proof. vm_compute; repeat split. Qed.

(** ** Runs that abort *)




(** C10.  A job with [batch_size = 0] and at least one recipient is
    accepted by the endpoint; its run writes to the first recipient only.
    The delivery itself returns, the modulo of the delay logic then raises
    [ZeroDivisionError] out of the loop body, the run-level handler prints
    the error and the coroutine returns.  The whole trace of the run is
    that one request followed by that one line: the other recipients are
    never written to and the counters, which had reached one delivery,
    appear nowhere. *)
Theorem zero_batch_size_aborts_after_first_send config ep r rest :
  batch_size config = 0 ->
  recipient_ids config = r :: rest ->
  (exists a, outcome (send_messages config) = Ok a) /\
  outcome (deliver config ep r) = Ok tt /\
  outcome (loop_body config ep 0 r)
  = Raise (ZeroDivisionError "integer modulo by zero") /\
  ~ completes_normally config ep /\
  outcome (send_messages_task config ep) = Ok tt /\
  trace (final (send_messages_task config ep))
  = [EPost (request_for config r);
     EPrint "Error in send_messages_task: integer modulo by zero"] /\
  (successful (final (send_messages_task config ep))
   + failed (final (send_messages_task config ep)) = 1)%nat.
Proof.
  intros Hb Hr.
  split; [eexists; reflexivity|].
  split; [unfold outcome; now rewrite deliver_counts|].
  split.
  { unfold outcome, loop_body, bind.
    rewrite deliver_counts, delay_logic_zero by assumption; reflexivity. }
  split.
  { now apply (dispatch_aborts config ep Hb r rest). }
  unfold outcome, final.
  rewrite (task_zero _ _ Hb r rest) by assumption; simpl.
  repeat split.
  destruct (outcome_of (ep 0%nat (request_for config r))); reflexivity.
Qed.

Lemma zero_batch_size_aborts_after_first_send_witness :
  batch_size (job ["r1"; "r2"; "r3"]%string 5 0 30) = 0 /\
  recipient_ids (job ["r1"; "r2"; "r3"]%string 5 0 30)
  = "r1"%string :: ["r2"; "r3"]%string /\
  exists a,
    outcome (send_messages (job ["r1"; "r2"; "r3"]%string 5 0 30)) = Ok a.
Proof.
  assert (Hb : batch_size (job ["r1"; "r2"; "r3"]%string 5 0 30) = 0)
    by reflexivity.
  assert (Hr : recipient_ids (job ["r1"; "r2"; "r3"]%string 5 0 30)
               = "r1"%string :: ["r2"; "r3"]%string) by reflexivity.
  split; [exact Hb|split; [exact Hr|]].
  exact (proj1 (zero_batch_size_aborts_after_first_send
                  (job ["r1"; "r2"; "r3"]%string 5 0 30) accepts_all
                  "r1"%string ["r2"; "r3"]%string Hb Hr)).
Defined.


(** ** Further properties of the dispatcher *)

(** X1.  What a run does never depends on what the endpoint answers: the
    same requests, the same sleeps and the same printed line, whether every
    delivery succeeds, fails or raises.  The coroutine neither retries nor
    backs off nor stops early on a failed delivery. *)
Theorem run_ignores_the_answers config ep ep' :
  trace (final (send_messages_task config ep))
  = trace (final (send_messages_task config ep')).
Proof. exact (task_trace_frame config ep ep' init). Qed.

(** X2.  With a non-zero [batch_size] and delays that [asyncio.sleep]
    can sleep on, the run issues one request per entry of [recipient_ids],
    in list order and with repeated entries repeated; every request goes
    to the page's [/messages] URL and carries the job's text and access
    token. *)
Theorem one_request_per_entry config ep :
  batch_size config <> 0 ->
  delays_fit config ->
  let sent := posts (trace (final (send_messages_task config ep))) in
  map req_recipient sent = recipient_ids config /\
  Forall (fun rq =>
            req_url rq = messages_url config /\
            req_text rq = message_text config /\
            req_access_token rq = access_token config) sent.
Proof.
  intros Hb Hfit sent; subst sent.
  rewrite every_recipient_attempted_in_order by assumption.
  split.
  - rewrite map_map; simpl; apply map_id.
  - apply Forall_forall; intros rq Hin.
    apply in_map_iff in Hin as (r & <- & _); repeat split.
Qed.

Lemma one_request_per_entry_witness :
  batch_size (job ["r1"; "r2"; "r1"]%string 5 2 30) <> 0 /\
  delays_fit (job ["r1"; "r2"; "r1"]%string 5 2 30) /\
  map req_recipient
    (posts (trace (final (send_messages_task
                            (job ["r1"; "r2"; "r1"]%string 5 2 30)
                            rejects_all))))
  = recipient_ids (job ["r1"; "r2"; "r1"]%string 5 2 30).
Proof.
  assert (H : batch_size (job ["r1"; "r2"; "r1"]%string 5 2 30) <> 0)
    by (simpl; lia).
  assert (Hfit : delays_fit (job ["r1"; "r2"; "r1"]%string 5 2 30))
    by (split; vm_compute; reflexivity).
  split; [exact H|split; [exact Hfit|]].
  exact (proj1 (one_request_per_entry
                  (job ["r1"; "r2"; "r1"]%string 5 2 30) rejects_all
                  H Hfit)).
Defined.

Lemma mod_opp_eqb a b : (a mod (- b) =? 0) = (a mod b =? 0).
Proof.
  destruct (Z.eq_dec b 0) as [->|Hb]; [reflexivity|].
  destruct (Z.eqb_spec (a mod b) 0) as [E|E].
  - apply Z.eqb_eq, Z.mod_opp_r_z; assumption.
  - apply Z.eqb_neq; intros E'; apply E.
    rewrite <- (Z.opp_involutive b) at 1.
    apply Z.mod_opp_r_z; [lia|assumption].
Qed.

Lemma next_delay_opp_batch_size config index :
  next_delay (with_batch_size config (- batch_size config)) index
  = next_delay config index.
Proof. unfold next_delay; simpl; now rewrite mod_opp_eqb. Qed.

Lemma loop_opp_batch_size config l :
  forall index,
    loop_result (with_batch_size config (- batch_size config)) index l
    = loop_result config index l /\
    run_events (with_batch_size config (- batch_size config)) index l
    = run_events config index l.
Proof.
  induction l as [|r l IH]; intros index; simpl; [now split|].
  rewrite next_delay_opp_batch_size.
  destruct (overflows (next_delay config index)); [now split|].
  destruct (IH (S index)) as [-> ->]; now split.
Qed.

(** X3.  A negative [batch_size] is not an error: Python's [%] takes the
    sign of the divisor, the test against zero does not see it, and the
    job runs exactly as with the absolute value of its [batch_size]. *)
Theorem negated_batch_size_paces_alike config ep :
  batch_size config <> 0 ->
  trace (final (send_messages_task
                  (with_batch_size config (- batch_size config)) ep))
  = trace (final (send_messages_task config ep)).
Proof.
  intros Hb; unfold final.
  assert (Hb' : batch_size (with_batch_size config (- batch_size config))
                <> 0) by (simpl; lia).
  destruct (loop_opp_batch_size config (recipient_ids config) 0)
    as [Hres Hev].
  destruct (loop_result_cases config 0 (recipient_ids config)) as [Hl|Hl].
  - rewrite (task_completes config ep Hb _ Hl).
    rewrite (task_completes _ ep Hb') by (simpl; congruence).
    simpl.
    destruct (loop_result_Ok _ _ _ Hl) as [_ <-].
    rewrite <- Hev.
    symmetry; apply loop_result_Ok; simpl; congruence.
  - rewrite (task_stopped config ep Hb _ _ Hl).
    rewrite (task_stopped _ ep Hb' _ _ (eq_trans Hres Hl)).
    simpl; now rewrite Hev.
Qed.

Lemma negated_batch_size_paces_alike_witness :
  batch_size (job twelve 5 10 30) <> 0 /\
  trace (final (send_messages_task
                  (with_batch_size (job twelve 5 10 30)
                                   (- batch_size (job twelve 5 10 30)))
                  accepts_all))
  = trace (final (send_messages_task (job twelve 5 10 30) accepts_all)).
Proof.
  assert (H : batch_size (job twelve 5 10 30) <> 0) by (simpl; lia).
  split; [exact H|].
  exact (negated_batch_size_paces_alike (job twelve 5 10 30) accepts_all H).
Defined.

Lemma next_delay_short config index :
  (index < List.length (recipient_ids config))%nat ->
  Z.of_nat (List.length (recipient_ids config)) <= batch_size config ->
  next_delay config index = delay_between_messages config.
Proof.
  intros Hi Hlen; unfold next_delay.
  destruct (Z.ltb_spec (Z.of_nat index + 1)
              (Z.of_nat (List.length (recipient_ids config)))) as [L|L];
    [|now rewrite andb_false_r].
  rewrite Z.mod_small by lia.
  destruct (Z.eqb_spec (Z.of_nat index + 1) 0); [lia|reflexivity].
Qed.

Lemma loop_result_short config l :
  forall index,
    (index + List.length l <= List.length (recipient_ids config))%nat ->
    Z.of_nat (List.length (recipient_ids config)) <= batch_size config ->
    delay_between_messages config < float_limit ->
    loop_result config index l = Ok tt.
Proof.
  induction l as [|r l IH]; intros index Hi Hlen Hd; simpl; [reflexivity|].
  simpl in Hi.
  rewrite next_delay_short, (fits _ Hd) by lia.
  apply IH; [lia|assumption|assumption].
Qed.

Lemma map_next_delay_short config n m :
  (m + n <= List.length (recipient_ids config))%nat ->
  Z.of_nat (List.length (recipient_ids config)) <= batch_size config ->
  map (next_delay config) (seq m n)
  = repeat (delay_between_messages config) n.
Proof.
  revert m; induction n as [|n IH]; intros m Hm Hlen; simpl; [reflexivity|].
  rewrite IH by lia; f_equal.
  apply next_delay_short; [lia|assumption].
Qed.

(** X4.  When [batch_size] is at least the number of recipients the
    batch delay is never used, not even looked at: if
    [delay_between_messages] is a value [asyncio.sleep] can sleep on, the
    run sleeps on it after every send, also after a last send that falls
    on the batch boundary, whatever [batch_delay] is. *)
Theorem no_batch_pause_within_one_batch config ep :
  Z.of_nat (List.length (recipient_ids config)) <= batch_size config ->
  delay_between_messages config < float_limit ->
  sleeps (trace (final (send_messages_task config ep)))
  = repeat (delay_between_messages config)
           (List.length (recipient_ids config)).
Proof.
  intros Hlen Hd; unfold final.
  destruct (recipient_ids config) as [|r rest] eqn:Hr.
  - now rewrite task_empty.
  - assert (Hb : batch_size config <> 0) by (simpl in Hlen; lia).
    rewrite <- Hr in *.
    rewrite task_completes by
      (assumption || (apply loop_result_short; (lia || assumption))).
    simpl trace; rewrite sleeps_paced.
    apply map_next_delay_short; [lia|assumption].
Qed.

Lemma no_batch_pause_within_one_batch_witness :
  Z.of_nat (List.length (recipient_ids (job ten 5 10 huge)))
  <= batch_size (job ten 5 10 huge) /\
  delay_between_messages (job ten 5 10 huge) < float_limit /\
  sleeps (trace (final (send_messages_task (job ten 5 10 huge) accepts_all)))
  = repeat (delay_between_messages (job ten 5 10 huge))
           (List.length (recipient_ids (job ten 5 10 huge))).
Proof.
  assert (H : Z.of_nat (List.length (recipient_ids (job ten 5 10 huge)))
              <= batch_size (job ten 5 10 huge)) by (simpl; lia).
  assert (Hd : delay_between_messages (job ten 5 10 huge) < float_limit)
    by (vm_compute; reflexivity).
  split; [exact H|split; [exact Hd|]].
  exact (no_batch_pause_within_one_batch (job ten 5 10 huge) accepts_all
           H Hd).
Defined.

Lemma Zsum_app l l' :
  fold_right Z.add 0 (l ++ l')
  = fold_right Z.add 0 l + fold_right Z.add 0 l'.
Proof. induction l as [|x l IH]; simpl; [reflexivity|rewrite IH; lia]. Qed.

(** Passing a multiple of [b] raises the quotient by one. *)
Lemma div_succ_step b m :
  0 < b -> 0 <= m ->
  (m + 1) / b = m / b + (if (m + 1) mod b =? 0 then 1 else 0).
Proof.
  intros Hb Hm.
  pose proof (Z.div_mod m b ltac:(lia)) as Hdm.
  pose proof (Z.mod_pos_bound m b Hb) as Hr.
  destruct (Z.eq_dec (m mod b + 1) b) as [E|E].
  - assert (Hq : m + 1 = b * (m / b + 1) + 0) by nia.
    rewrite <- (Z.mod_unique_pos (m + 1) b (m / b + 1) 0 ltac:(lia) Hq).
    rewrite <- (Z.div_unique_pos (m + 1) b (m / b + 1) 0 ltac:(lia) Hq).
    reflexivity.
  - assert (Hq : m + 1 = b * (m / b) + (m mod b + 1)) by nia.
    rewrite <- (Z.mod_unique_pos (m + 1) b (m / b) (m mod b + 1)
                  ltac:(lia) Hq).
    rewrite <- (Z.div_unique_pos (m + 1) b (m / b) (m mod b + 1)
                  ltac:(lia) Hq).
    destruct (Z.eqb_spec (m mod b + 1) 0); lia.
Qed.

(** The sleeps after the first [m] sends, none of them the last. *)
Lemma wait_before_last config m :
  0 < batch_size config ->
  (m < List.length (recipient_ids config))%nat ->
  fold_right Z.add 0 (map (next_delay config) (seq 0 m))
  = Z.of_nat m * delay_between_messages config
    + Z.of_nat m / batch_size config
      * (batch_delay config - delay_between_messages config).
Proof.
  intros Hb; induction m as [|m IH]; intros Hm.
  - change (Z.of_nat 0) with 0; rewrite Z.div_0_l by lia; simpl; lia.
  - rewrite seq_S, map_app, Zsum_app, IH by lia.
    replace (Z.of_nat (S m)) with (Z.of_nat m + 1) by lia.
    rewrite (div_succ_step (batch_size config) (Z.of_nat m)) by lia.
    cbn [Nat.add map fold_right]; unfold next_delay.
    destruct (Z.ltb_spec (Z.of_nat m + 1)
                (Z.of_nat (List.length (recipient_ids config)))); [|lia].
    rewrite andb_true_r.
    destruct ((Z.of_nat m + 1) mod batch_size config =? 0); lia.
Qed.

(** X5.  What a job with a positive [batch_size] and delays that
    [asyncio.sleep] can sleep on sleeps on in all: one
    [delay_between_messages] per recipient, and for every full batch that
    is followed by another send the difference up to [batch_delay]. *)
Theorem total_wait_of_a_job config ep :
  0 < batch_size config ->
  delays_fit config ->
  let n := List.length (recipient_ids config) in
  total_wait (trace (final (send_messages_task config ep)))
  = Z.of_nat n * delay_between_messages config
    + Z.of_nat (pred n) / batch_size config
      * (batch_delay config - delay_between_messages config).
Proof.
  intros Hb Hfit n; subst n; unfold total_wait, final.
  rewrite task_completes by (lia || now apply delays_fit_loop_result).
  simpl trace.
  rewrite sleeps_paced.
  destruct (List.length (recipient_ids config)) as [|m] eqn:Hn;
    [change (Z.of_nat (pred 0)) with 0; rewrite Z.div_0_l by lia; simpl; lia|].
  assert (Hm : (m < List.length (recipient_ids config))%nat) by lia.
  rewrite seq_S, map_app, Zsum_app, (wait_before_last config m Hb Hm).
  cbn [Nat.add map fold_right pred]; unfold next_delay; rewrite Hn.
  destruct (Z.ltb_spec (Z.of_nat m + 1) (Z.of_nat (S m))); [lia|].
  rewrite andb_false_r; lia.
Qed.

Lemma total_wait_of_a_job_witness :
  0 < batch_size (job twelve 5 10 30) /\
  delays_fit (job twelve 5 10 30) /\
  total_wait (trace (final (send_messages_task (job twelve 5 10 30)
                                               accepts_all))) = 85.
Proof.
  assert (H : 0 < batch_size (job twelve 5 10 30)) by (simpl; lia).
  assert (Hfit : delays_fit (job twelve 5 10 30))
    by (split; vm_compute; reflexivity).
  split; [exact H|split; [exact Hfit|]].
  exact (total_wait_of_a_job (job twelve 5 10 30) accepts_all H Hfit).
Defined.

(** X6.  Nothing remembers an earlier run.  With a non-zero [batch_size]
    and delays that [asyncio.sleep] can sleep on, running the same job
    again writes to every recipient again, after the requests of the
    first run, and the counters of the second run start from zero: they
    add up to one list of recipients, not two. *)
Theorem second_run_sends_again config ep :
  batch_size config <> 0 ->
  delays_fit config ->
  let twice := send_messages_task config ep ;;
               send_messages_task config ep in
  outcome twice = Ok tt /\
  posts (trace (final twice))
  = map (request_for config) (recipient_ids config)
    ++ map (request_for config) (recipient_ids config) /\
  (successful (final twice) + failed (final twice)
   = List.length (recipient_ids config))%nat.
Proof.
  intros Hb Hfit twice; subst twice; unfold outcome, final, bind.
  pose proof (delays_fit_loop_result config (recipient_ids config) Hfit 0%nat)
    as Hl.
  rewrite task_completes by assumption.
  rewrite task_completes by assumption; simpl.
  rewrite !posts_app, !posts_paced; simpl.
  repeat split.
  now rewrite count_total, outcomes_length.
Qed.

Lemma second_run_sends_again_witness :
  batch_size (job ten 5 10 30) <> 0 /\
  delays_fit (job ten 5 10 30) /\
  outcome (send_messages_task (job ten 5 10 30) fails_3_and_7 ;;
           send_messages_task (job ten 5 10 30) fails_3_and_7) = Ok tt.
Proof.
  assert (H : batch_size (job ten 5 10 30) <> 0) by (simpl; lia).
  assert (Hfit : delays_fit (job ten 5 10 30))
    by (split; vm_compute; reflexivity).
  split; [exact H|split; [exact Hfit|]].
  exact (proj1 (second_run_sends_again (job ten 5 10 30) fails_3_and_7
                  H Hfit)).
Defined.

(** ** The read endpoints *)

Module GraphFacts.
Import Graph.

Lemma bind_Return {A B} (m : py A) (k : A -> py B) (b : B) :
  bind m k = Return b <-> exists a, m = Return a /\ k a = Return b.
Proof.
  destruct m as [a|e]; simpl; split.
  - intros H; now exists a.
  - now intros (a' & [= <-] & H).
  - discriminate.
  - now intros (a' & [=] & _).
Qed.

(** A loop returns exactly when every item it visits returns, and then
    with one result per item, in order. *)
Lemma traverse_Return {A B} (f : A -> py B) l ys :
  traverse f l = Return ys <-> Forall2 (fun x y => f x = Return y) l ys.
Proof.
  revert ys; induction l as [|x l IH]; intros ys; simpl.
  - split; [intros [= <-]; constructor|intros H; now inversion H].
  - rewrite bind_Return; split.
    + intros (y & Hy & H); apply bind_Return in H as (ys' & Hys & [= <-]).
      constructor; [assumption|now apply IH].
    + intros H; inversion H as [|? y ? ys' Hy Hys]; subst.
      exists y; split; [assumption|].
      apply bind_Return; exists ys'; split; [now apply IH|reflexivity].
Qed.

(** Only a dict without an ["error"] member passes the error check and
    still has a [get] method. *)
Lemma checked_data_is_object data v :
  bind (raise_api_error data) (fun _ => get data "data" (JArray [])) = Return v
  <-> exists m, data = JObject m /\ lookup "error" m = None
                /\ v = data_or_empty m.
Proof.
  split.
  - intros H; apply bind_Return in H as ([] & Herr & Hget).
    destruct data as [| | | | |m]; try discriminate Hget.
    exists m; unfold raise_api_error in Herr; simpl in Herr, Hget.
    destruct (lookup "error" m) as [err|] eqn:E.
    + simpl in Herr; destruct err as [| | | | |em]; try discriminate Herr.
      simpl in Herr; destruct (lookup "message" em); discriminate Herr.
    + injection Hget as <-; repeat split.
  - intros (m & -> & E & ->); unfold raise_api_error; simpl.
    now rewrite E.
Qed.

(** X8.  When the Graph API reports an error, the three endpoints that
    check for it build an [HTTPException] with status 400 and the message
    of the error, and their own handler turns it into a status 500 whose
    detail is [str] of that exception: the caller never sees the 400, and
    never a result, whatever else the answer holds. *)
Theorem api_error_becomes_500
    str str_field page conversation token g st m em detail :
  (forall rq, g rq = Json st (JObject m)) ->
  lookup "error" m = Some (JObject em) ->
  lookup "message" em = Some detail ->
  get_user_pages str str_field token g
  = Throw (HTTPException 500 (JString (str (HTTPException 400 detail)))) /\
  get_page_conversations str page token g
  = Throw (HTTPException 500 (JString (str (HTTPException 400 detail)))) /\
  get_conversation_messages str str_field conversation token g
  = Throw (HTTPException 500 (JString (str (HTTPException 400 detail)))).
Proof.
  intros Hg He Hm.
  unfold get_user_pages, get_page_conversations, get_conversation_messages,
    get_json, raise_api_error.
  rewrite !Hg; simpl; rewrite He; simpl; rewrite Hm; simpl.
  repeat split.
Qed.

Lemma api_error_becomes_500_witness :
  (forall rq, always (Json 400 (JObject expired_token)) rq
              = Json 400 (JObject expired_token)) /\
  lookup "error" expired_token
  = Some (JObject [("message", JString "Error validating access token");
                   ("code", JNumber "190")]%string) /\
  get_page_conversations silent "1029384756" "EAAB"
    (always (Json 400 (JObject expired_token)))
  = Throw (HTTPException 500
             (JString (silent (HTTPException 400
                                 (JString "Error validating access token"))))).
Proof.
  assert (Hg : forall rq, always (Json 400 (JObject expired_token)) rq
                          = Json 400 (JObject expired_token)) by reflexivity.
  assert (He : lookup "error" expired_token
               = Some (JObject
                         [("message", JString "Error validating access token");
                          ("code", JNumber "190")]%string)) by reflexivity.
  split; [exact Hg|split; [exact He|]].
  exact (proj1 (proj2 (api_error_becomes_500 silent strings_only
                         "1029384756" "c_1" "EAAB" _ 400 expired_token _
                         (JString "Error validating access token")
                         Hg He eq_refl))).
Defined.

(** X9.  [facebook_auth_callback] replies exactly when the Graph API
    answers the token request with a JSON object that has an
    ["access_token"] member, whatever the status of that answer; the reply
    carries the token and the ["token_type"] of the answer, or ["bearer"]
    when the answer has none.  A JSON object without the member ends in
    status 500, not in the 400 the endpoint raises for it. *)
Theorem auth_callback_needs_a_token_object str env code g :
  (forall v,
     facebook_auth_callback str env code g = Return v <->
     exists st m token,
       g (token_request env code) = Json st (JObject m) /\
       lookup "access_token" m = Some token /\
       v = JObject
             [("access_token", token);
              ("token_type",
               match lookup "token_type" m with
               | Some t => t
               | None => JString "bearer"
               end)]%string) /\
  (forall st m,
     g (token_request env code) = Json st (JObject m) ->
     lookup "access_token" m = None ->
     facebook_auth_callback str env code g
     = Throw (HTTPException 500
                (JString (str (HTTPException 400
                                 (JString "Failed to get access token")))))).
Proof.
  unfold facebook_auth_callback, get_json.
  change {| url := _; params := _ |} with (token_request env code).
  split.
  - intros v; split.
    + destruct (g (token_request env code)) as [st data|st|msg];
        try discriminate.
      destruct data as [| | | |items|m]; simpl; try discriminate.
      * destruct (String.index 0 "access_token" s); discriminate.
      * destruct (existsb _ items); discriminate.
      * destruct (lookup "access_token" m) as [token|] eqn:E;
          simpl; [|discriminate].
        intros [= <-]; now exists st, m, token.
    + intros (st & m & token & -> & E & ->); simpl; now rewrite E.
  - intros st m -> E; simpl; now rewrite E.
Qed.

(** X10.  [get_page_conversations] replies exactly when the Graph API
    answers with a JSON object that has no ["error"] member, whatever the
    status of that answer; the reply is the ["data"] member as it came,
    or an empty list when the answer has none. *)
Theorem conversations_returned_as_they_came str page token g v :
  get_page_conversations str page token g = Return v <->
  exists st m,
    g (conversations_request page token) = Json st (JObject m) /\
    lookup "error" m = None /\
    v = data_or_empty m.
Proof.
  unfold get_page_conversations, get_json.
  change {| url := _; params := _ |} with (conversations_request page token).
  destruct (g (conversations_request page token)) as [st data|st|msg];
    simpl.
  - change (bind (Return data) ?k) with (k data); cbv beta.
    destruct (bind _ _) as [w|e] eqn:Hbody; simpl.
    + apply checked_data_is_object in Hbody as (m & -> & E & ->).
      split; [intros [= <-]; now exists st, m|].
      now intros (st' & m' & [= <- <-] & _ & ->).
    + split; [discriminate|].
      intros (st' & m' & [= <- ->] & E & ->).
      assert (H : bind (raise_api_error (JObject m'))
                    (fun _ => get (JObject m') "data" (JArray []))
                  = Return (data_or_empty m'))
        by (apply checked_data_is_object; now exists m').
      congruence.
  - split; [discriminate|now intros (? & ? & [=] & _)].
  - split; [discriminate|now intros (? & ? & [=] & _)].
Qed.


(** One item of a conversation. *)
Lemma message_of_Return str_field item c :
  message_of str_field item = Return c <-> message_reads_as str_field item c.
Proof.
  unfold message_of, message_reads_as, new_ConversationMessage; split.
  - destruct item as [| | | | |members]; try discriminate; simpl.
    destruct (lookup "id" members) as [i|] eqn:Hi; [simpl|discriminate].
    destruct (lookup "from" members) as [sender|] eqn:Hf;
      [simpl|discriminate].
    destruct sender as [| | | | |sender]; try discriminate; simpl.
    destruct (lookup "name" sender) as [n|] eqn:Hn; [simpl|discriminate].
    destruct (lookup "id" sender) as [sid|] eqn:Hs; [simpl|discriminate].
    destruct (lookup "created_time" members) as [t|] eqn:Ht;
      [simpl|discriminate].
    destruct (str_field i) as [i'|] eqn:Ei; [|discriminate].
    destruct (str_field n) as [n'|] eqn:En; [|discriminate].
    destruct (str_field sid) as [sid'|] eqn:Es; [|discriminate].
    destruct (str_field match lookup "message" members with
                        | Some text => text
                        | None => JString ""
                        end) as [m'|] eqn:Em; [|discriminate].
    destruct (str_field t) as [t'|] eqn:Et; [|discriminate].
    intros [= <-]; exists members, sender, i, n, sid, t.
    repeat split; assumption.
  - intros (members & sender & i & n & sid & t & -> & Hi & Hf & Hn & Hs
            & Ht & Ei & En & Es & Em & Et); simpl.
    rewrite Hi; simpl; rewrite Hf; simpl; rewrite Hn; simpl.
    rewrite Hs; simpl; rewrite Ht; simpl.
    rewrite Ei, En, Es, Em, Et; now destruct c.
Qed.

(** One page. *)
Lemma new_FacebookPage_Return str_field item p :
  new_FacebookPage str_field item = Return p <-> page_reads_as str_field item p.
Proof.
  unfold new_FacebookPage, page_reads_as; split.
  - destruct item as [| | | | |kwargs]; try discriminate.
    destruct (lookup "id" kwargs) as [i|] eqn:Hi; [|discriminate].
    destruct (lookup "name" kwargs) as [n|] eqn:Hn; [|discriminate].
    destruct (str_field i) as [i'|] eqn:Ei; [|discriminate].
    destruct (str_field n) as [n'|] eqn:En.
    + destruct (lookup "category" kwargs) as [c|] eqn:Hc.
      * destruct c; simpl.
        1: { intros [= <-]; exists kwargs, i, n; rewrite Hc.
             repeat split; assumption. }
        all: match goal with
             | |- context [option_map Some (?f ?v)] =>
                 destruct (f v) as [s'|] eqn:Ec; simpl;
                 [|discriminate]
             end;
             intros [= <-]; exists kwargs, i, n; rewrite Hc;
             repeat split; try assumption; now exists s'.
      * intros [= <-]; exists kwargs, i, n; rewrite Hc.
        repeat split; assumption.
    + destruct (lookup "category" kwargs) as [c|];
        [destruct c; simpl; try destruct (str_field _)|]; discriminate.
  - intros (kwargs & i & n & -> & Hi & Hn & Ei & En & Hc).
    rewrite Hi, Hn, Ei, En.
    destruct p as [pi pn pc]; simpl in *.
    destruct (lookup "category" kwargs) as [c|];
      [destruct c; try destruct Hc as (s' & Ec & ->);
       try rewrite Ec; try rewrite Hc|rewrite Hc]; reflexivity.
Qed.

(** The part the two listing endpoints share: the error check, the
    ["data"] member and the loop over it. *)
Lemma listing_Return {B} (f : json -> py B) data ys :
  bind (raise_api_error data) (fun _ =>
  bind (get data "data" (JArray [])) (fun found =>
  bind (iterate found) (fun items => traverse f items))) = Return ys
  <-> exists m items,
        data = JObject m /\ lookup "error" m = None /\
        iterate (data_or_empty m) = Return items /\
        Forall2 (fun x y => f x = Return y) items ys.
Proof.
  split.
  - intros H; apply bind_Return in H as ([] & Herr & H).
    apply bind_Return in H as (found & Hget & H).
    apply bind_Return in H as (items & Hit & H).
    assert (Hc : bind (raise_api_error data)
                   (fun _ => get data "data" (JArray [])) = Return found)
      by (apply bind_Return; now exists tt).
    apply checked_data_is_object in Hc as (m & -> & E & ->).
    exists m, items; repeat split; try assumption.
    now apply traverse_Return.
  - intros (m & items & -> & E & Hit & H).
    assert (Hc : bind (raise_api_error (JObject m))
                   (fun _ => get (JObject m) "data" (JArray []))
                 = Return (data_or_empty m))
      by (apply checked_data_is_object; now exists m).
    apply bind_Return in Hc as ([] & Herr & Hget).
    apply bind_Return; exists tt; split; [assumption|].
    apply bind_Return; exists (data_or_empty m); split; [assumption|].
    apply bind_Return; exists items; split; [assumption|].
    now apply traverse_Return.
Qed.

Lemma try_except_Return {A} str (m : py A) v :
  try_except m (internal_error str) = Return v <-> m = Return v.
Proof. destruct m; unfold internal_error; simpl; split; congruence. Qed.

(** A loop that meets an exception ends with it, whatever it has built
    before and whatever would have followed. *)
Lemma traverse_Throw {A B} (f : A -> py B) good bad rest e :
  Forall (fun x => exists y, f x = Return y) good ->
  f bad = Throw e ->
  traverse f (good ++ bad :: rest) = Throw e.
Proof.
  intros Hgood Hbad; induction Hgood as [|x good (y & Hy) _ IH]; simpl.
  - now rewrite Hbad.
  - now rewrite Hy, IH.
Qed.

(** X11.  [get_conversation_messages] replies exactly when the Graph API
    answers with a JSON object without an ["error"] member whose ["data"]
    can be iterated and holds nothing but well-formed messages; the reply
    then has one message per item, in the order of the answer, and a
    message without text is kept with an empty text. *)
Theorem conversation_messages_characterised
    str str_field conversation token g msgs :
  get_conversation_messages str str_field conversation token g = Return msgs
  <-> exists st m items,
        g (messages_request conversation token) = Json st (JObject m) /\
        lookup "error" m = None /\
        iterate (data_or_empty m) = Return items /\
        Forall2 (message_reads_as str_field) items msgs.
Proof.
  unfold get_conversation_messages; rewrite try_except_Return.
  unfold get_json.
  change {| url := _; params := _ |}
    with (messages_request conversation token).
  destruct (g (messages_request conversation token)) as [st data|st|msg];
    simpl.
  - change (bind (Return data) ?k) with (k data); cbv beta.
    rewrite listing_Return; split.
    + intros (m & items & -> & E & Hit & H); exists st, m, items.
      repeat split; try assumption.
      eapply Forall2_impl; [|exact H].
      intros x y; apply message_of_Return.
    + intros (st' & m & items & [= <- ->] & E & Hit & H); exists m, items.
      repeat split; try assumption.
      eapply Forall2_impl; [|exact H].
      intros x y; apply message_of_Return.
  - split; [discriminate|now intros (? & ? & ? & [=] & _)].
  - split; [discriminate|now intros (? & ? & ? & [=] & _)].
Qed.

(** X12.  One item that cannot be read fails the whole request: when the
    ["data"] list holds readable messages followed by an item on which
    building the message raises, [get_conversation_messages] raises
    status 500 with [str] of that exception, and neither the messages
    before it nor those after it are returned. *)
Theorem one_broken_message_fails_the_request
    str str_field conversation token g st m good bad rest e :
  g (messages_request conversation token) = Json st (JObject m) ->
  lookup "error" m = None ->
  lookup "data" m = Some (JArray (good ++ bad :: rest)) ->
  Forall (fun x => exists c, message_of str_field x = Return c) good ->
  message_of str_field bad = Throw e ->
  get_conversation_messages str str_field conversation token g
  = Throw (HTTPException 500 (JString (str e))).
Proof.
  intros Hg He Hd Hgood Hbad.
  unfold get_conversation_messages, get_json.
  change {| url := _; params := _ |}
    with (messages_request conversation token).
  rewrite Hg; unfold raise_api_error; simpl.
  rewrite He, Hd; simpl.
  now rewrite (traverse_Throw _ good bad rest e Hgood Hbad).
Qed.

Lemma one_broken_message_fails_the_request_witness :
  get_conversation_messages silent strings_only "t_1" "EAAB"
    (always (Json 200 (JObject broken_third_message)))
  = Throw (HTTPException 500 (JString (silent (KeyError "from")))).
Proof.
  eapply (one_broken_message_fails_the_request silent strings_only
            "t_1" "EAAB" (always (Json 200 (JObject broken_third_message)))
            200 broken_third_message).
  - reflexivity.
  - reflexivity.
  - reflexivity.
  - repeat constructor; eexists; reflexivity.
  - reflexivity.
Defined.

(** X13.  [get_user_pages] replies exactly when the Graph API answers
    with a JSON object without an ["error"] member whose ["data"] can be
    iterated and holds nothing but objects with an [id] and a [name]; the
    reply then has one page per item, in the order of the answer, with
    its [category] when the item has one. *)
Theorem user_pages_characterised str str_field token g pages :
  get_user_pages str str_field token g = Return pages
  <-> exists st m items,
        g (pages_request token) = Json st (JObject m) /\
        lookup "error" m = None /\
        iterate (data_or_empty m) = Return items /\
        Forall2 (page_reads_as str_field) items pages.
Proof.
  unfold get_user_pages; rewrite try_except_Return.
  unfold get_json.
  change {| url := _; params := _ |} with (pages_request token).
  destruct (g (pages_request token)) as [st data|st|msg]; simpl.
  - change (bind (Return data) ?k) with (k data); cbv beta.
    rewrite listing_Return; split.
    + intros (m & items & -> & E & Hit & H); exists st, m, items.
      repeat split; try assumption.
      eapply Forall2_impl; [|exact H].
      intros x y; apply new_FacebookPage_Return.
    + intros (st' & m & items & [= <- ->] & E & Hit & H); exists m, items.
      repeat split; try assumption.
      eapply Forall2_impl; [|exact H].
      intros x y; apply new_FacebookPage_Return.
  - split; [discriminate|now intros (? & ? & ? & [=] & _)].
  - split; [discriminate|now intros (? & ? & ? & [=] & _)].
Qed.

(** The two scenarios, run. *)
Example two_messages_read :
  get_conversation_messages silent strings_only "t_1" "EAAB"
    (always (Json 200 (JObject two_messages)))
  = Return
      [{| cm_id := "m_1"; cm_sender_name := "Amal"; cm_sender_id := "7001";
          cm_message := "hello";
          cm_created_time := "2024-03-01T10:00:00+0000" |};
       {| cm_id := "m_2"; cm_sender_name := "Page";
          cm_sender_id := "1029384756"; cm_message := "";
          cm_created_time := "2024-03-01T10:05:00+0000" |}]%string.
Proof. reflexivity. Qed.

Example two_pages_read :
  get_user_pages silent strings_only "EAAB"
    (always (Json 200 (JObject two_pages)))
  = Return
      [{| fp_id := "1029384756"; fp_name := "Mowafy";
          fp_category := Some "Shopping" |};
       {| fp_id := "5647382910"; fp_name := "Second";
          fp_category := None |}]%string.
Proof. reflexivity. Qed.

End GraphFacts.
